(** * The expression executors of juice (package [expr])

    A shallow embedding of the binary-expression executors of
    [internal/expr] and of the registry [FromToken], followed by the
    properties of the specification that concern them.

    - [reflect.Value] is an inductive type carrying the kind and the payload;
    - 64-bit integers are [Z] with the wrap-around written out;
    - [Exec] methods are programs of a small monad with one effect, the call
      of the continuation [next], and with Go's panics;
    - a continuation is given by its replies, one per invocation. *)

From Stdlib Require Import ZArith String Ascii List Lia Bool.
From Stdlib Require Import PrimFloat.
Import ListNotations.

Local Open Scope string_scope.
Local Open Scope Z_scope.

(** ** reflect.Kind *)

Module reflect.

(** The kinds of Go's [reflect] package, in the order of their declaration. *)
Inductive Kind : Type :=
| Invalid | Bool
| Int | Int8 | Int16 | Int32 | Int64
| Uint | Uint8 | Uint16 | Uint32 | Uint64 | Uintptr
| Float32 | Float64 | Complex64 | Complex128
| Array | Chan | Func | Interface | Map | Pointer | Slice
| String | Struct | UnsafePointer.

(** A [Kind] is a [uint]; the numbering is the one [iota] gives. *)
Definition num (k : Kind) : Z :=
  match k with
  | Invalid => 0 | Bool => 1
  | Int => 2 | Int8 => 3 | Int16 => 4 | Int32 => 5 | Int64 => 6
  | Uint => 7 | Uint8 => 8 | Uint16 => 9 | Uint32 => 10 | Uint64 => 11
  | Uintptr => 12
  | Float32 => 13 | Float64 => 14 | Complex64 => 15 | Complex128 => 16
  | Array => 17 | Chan => 18 | Func => 19 | Interface => 20 | Map => 21
  | Pointer => 22 | Slice => 23 | String => 24 | Struct => 25
  | UnsafePointer => 26
  end.

(** [k1 <= k2] on kinds, as in [reflect.Int <= left.Kind()]. *)
Definition leb (k1 k2 : Kind) : bool := num k1 <=? num k2.

Definition eqb (k1 k2 : Kind) : bool := num k1 =? num k2.

(** [Kind.String], what [%v] prints for a kind. *)
Definition name (k : Kind) : string :=
  match k with
  | Invalid => "invalid" | Bool => "bool"
  | Int => "int" | Int8 => "int8" | Int16 => "int16" | Int32 => "int32"
  | Int64 => "int64"
  | Uint => "uint" | Uint8 => "uint8" | Uint16 => "uint16"
  | Uint32 => "uint32" | Uint64 => "uint64" | Uintptr => "uintptr"
  | Float32 => "float32" | Float64 => "float64"
  | Complex64 => "complex64" | Complex128 => "complex128"
  | Array => "array" | Chan => "chan" | Func => "func"
  | Interface => "interface" | Map => "map" | Pointer => "ptr"
  | Slice => "slice" | String => "string" | Struct => "struct"
  | UnsafePointer => "unsafe.Pointer"
  end.

End reflect.

Infix "<=k" := reflect.leb (at level 70, no associativity).

(** ** Machine integers *)

Definition two64 : Z := 2 ^ 64.
Definition MinInt64 : Z := - 2 ^ 63.
Definition MaxInt64 : Z := 2 ^ 63 - 1.
Definition MaxUint64 : Z := 2 ^ 64 - 1.

Definition in_int64 (z : Z) : Prop := MinInt64 <= z <= MaxInt64.
Definition in_uint64 (z : Z) : Prop := 0 <= z <= MaxUint64.

(** The value of type [int64] that a two's-complement result denotes. *)
Definition wrap_int64 (z : Z) : Z := (z + 2 ^ 63) mod two64 - 2 ^ 63.

(** The value of type [uint64] that a result denotes. *)
Definition wrap_uint64 (z : Z) : Z := z mod two64.

(** The conversion [uint64(x)] of an [int64]. *)
Definition uint64_of_int64 (x : Z) : Z := x mod two64.

(** ** Errors and panics *)

(** An [error] is known by its message ([errors.New], [fmt.Errorf]). *)
Inductive error : Type :=
| errorString (msg : string).

Definition Error (e : error) : string :=
  match e with errorString msg => msg end.

Inductive panic : Type :=
| DivideError
    (* runtime error: integer divide by zero *)
| ValueError (method : string) (k : reflect.Kind)
    (* reflect: call of <method> on <kind> Value *)
| OtherPanic (msg : string)
    (* a panic raised inside the continuation *).

(** ** reflect.Value *)

(** Complex numbers are pairs of [float64]. *)
Record complex128 : Type := complex { real : float; imag : float }.

(** The kinds that share an accessor: [Int] reads the signed ones, [Uint]
    the unsigned ones, [Float] and [Complex] the floating ones. *)
Inductive IntKind : Type := KInt | KInt8 | KInt16 | KInt32 | KInt64.
Inductive UintKind : Type :=
  KUint | KUint8 | KUint16 | KUint32 | KUint64 | KUintptr.
Inductive FloatKind : Type := KFloat32 | KFloat64.
Inductive ComplexKind : Type := KComplex64 | KComplex128.
Inductive OtherKind : Type :=
  KArray | KChan | KFunc | KMap | KSlice | KStruct | KUnsafePointer.

Definition kind_of_int (k : IntKind) : reflect.Kind :=
  match k with
  | KInt => reflect.Int | KInt8 => reflect.Int8 | KInt16 => reflect.Int16
  | KInt32 => reflect.Int32 | KInt64 => reflect.Int64
  end.

Definition kind_of_uint (k : UintKind) : reflect.Kind :=
  match k with
  | KUint => reflect.Uint | KUint8 => reflect.Uint8
  | KUint16 => reflect.Uint16 | KUint32 => reflect.Uint32
  | KUint64 => reflect.Uint64 | KUintptr => reflect.Uintptr
  end.

Definition kind_of_float (k : FloatKind) : reflect.Kind :=
  match k with KFloat32 => reflect.Float32 | KFloat64 => reflect.Float64 end.

Definition kind_of_complex (k : ComplexKind) : reflect.Kind :=
  match k with
  | KComplex64 => reflect.Complex64 | KComplex128 => reflect.Complex128
  end.

Definition kind_of_other (k : OtherKind) : reflect.Kind :=
  match k with
  | KArray => reflect.Array | KChan => reflect.Chan | KFunc => reflect.Func
  | KMap => reflect.Map | KSlice => reflect.Slice | KStruct => reflect.Struct
  | KUnsafePointer => reflect.UnsafePointer
  end.

(** A [reflect.Value]: its kind and what the accessors read from it.  [Int]
    returns an [int64] for the five signed kinds, [Uint] a [uint64] for the
    unsigned ones, [Float] a [float64], [Complex] a [complex128].  A pointer
    or an interface holds the value [Elem] gives; for a nil one this is the
    zero Value.  Values of the remaining kinds are opaque to the
    executors. *)
Inductive Value : Type :=
| VInvalid
| VBool (b : bool)
| VInt (k : IntKind) (n : Z)
| VUint (k : UintKind) (n : Z)
| VFloat (k : FloatKind) (f : float)
| VComplex (k : ComplexKind) (c : complex128)
| VString (s : string)
| VPointer (elem : Value)
| VInterface (elem : Value)
| VOther (k : OtherKind).

(** The width of the integer kinds ([int], [uint] and [uintptr] are 64 bits
    wide). *)
Definition int_bits (k : IntKind) : Z :=
  match k with KInt8 => 8 | KInt16 => 16 | KInt32 => 32 | _ => 64 end.

Definition uint_bits (k : UintKind) : Z :=
  match k with KUint8 => 8 | KUint16 => 16 | KUint32 => 32 | _ => 64 end.

(** The values [reflect] can produce: an integer payload fits its kind. *)
Fixpoint wf_value (v : Value) : Prop :=
  match v with
  | VInt k n => - 2 ^ (int_bits k - 1) <= n < 2 ^ (int_bits k - 1)
  | VUint k n => 0 <= n < 2 ^ uint_bits k
  | VPointer e | VInterface e => wf_value e
  | _ => True
  end.

(** [Value.Kind]. *)
Definition Kind (v : Value) : reflect.Kind :=
  match v with
  | VInvalid => reflect.Invalid
  | VBool _ => reflect.Bool
  | VInt k _ => kind_of_int k
  | VUint k _ => kind_of_uint k
  | VFloat k _ => kind_of_float k
  | VComplex k _ => kind_of_complex k
  | VString _ => reflect.String
  | VPointer _ => reflect.Pointer
  | VInterface _ => reflect.Interface
  | VOther k => kind_of_other k
  end.

(** [reflect.ValueOf] at the types the executors build values of. *)
Definition ValueOf_bool (b : bool) : Value := VBool b.
Definition ValueOf_int64 (n : Z) : Value := VInt KInt64 n.
Definition ValueOf_uint64 (n : Z) : Value := VUint KUint64 n.
Definition ValueOf_float64 (f : float) : Value := VFloat KFloat64 f.
Definition ValueOf_complex128 (c : complex128) : Value :=
  VComplex KComplex128 c.
Definition ValueOf_string (s : string) : Value := VString s.

(** The package variables of [expr]. *)
Definition nilValue : Value := VInvalid.
Definition invalidValue : Value := VInvalid.
Definition trueValue : Value := ValueOf_bool true.
Definition falseValue : Value := ValueOf_bool false.

(** Modelled from the spec: [reflectlite.Unwrap], whose source is not among
    the sources embedded here.  It is the indirection-resolution step that
    "follows pointer/optional-like indirections down to a concrete scalar or
    aggregate kind": pointers and interfaces are followed through [Elem]
    until a value of another kind is reached (the zero Value for a nil
    pointer or interface). *)
Fixpoint Unwrap (v : Value) : Value :=
  match v with
  | VPointer e | VInterface e => Unwrap e
  | _ => v
  end.

(** ** Programs that may call the continuation *)

(** What an [Exec] method and a continuation return: a value and an error
    that may be nil. *)
Definition result : Type := Value * option error.

(** An [Exec] method either returns, panics, or calls [next] and goes on
    with what [next] returned. *)
Inductive prog (A : Type) : Type :=
| Pure (a : A)
| Throw (p : panic)
| CallNext (k : result -> prog A).

Arguments Pure {A} a.
Arguments Throw {A} p.
Arguments CallNext {A} k.

Fixpoint bind {A B : Type} (m : prog A) (f : A -> prog B) : prog B :=
  match m with
  | Pure a => f a
  | Throw p => Throw p
  | CallNext k => CallNext (fun r => bind (k r) f)
  end.

(** The call [next()]. *)
Definition next : prog result := CallNext (fun r => Pure r).

Notation "x <- m ;; f" := (bind m (fun x => f))
  (at level 61, m at next level, right associativity).

(** How a call ends: it returns, it panics, or it never comes back. *)
Inductive outcome (A : Type) : Type :=
| Returned (a : A)
| Panicked (p : panic)
| Diverged.

Arguments Returned {A} a.
Arguments Panicked {A} p.
Arguments Diverged {A}.

(** A continuation is a closure: it may answer differently each time it is
    called.  It is given by how its [i]-th invocation ends. *)
Definition continuation : Type := nat -> outcome result.

(** Runs a program against a continuation that has already been invoked
    [calls] times; returns how the program ends and how many times the
    continuation has been invoked by then. *)
Fixpoint run {A : Type} (m : prog A) (nxt : continuation) (calls : nat)
  : outcome A * nat :=
  match m with
  | Pure a => (Returned a, calls)
  | Throw p => (Panicked p, calls)
  | CallNext k =>
      match nxt calls with
      | Returned r => run (k r) nxt (S calls)
      | Panicked p => (Panicked p, S calls)
      | Diverged => (Diverged, S calls)
      end
  end.

(** How a call of an executor ends, and the number of invocations of the
    continuation it made. *)
Definition behaviour {A : Type} (m : prog A) (nxt : continuation)
  : outcome A := fst (run m nxt 0).

Definition invocations {A : Type} (m : prog A) (nxt : continuation) : nat :=
  snd (run m nxt 0).

(** ** The accessors of reflect.Value *)

(** [Value.Bool] panics unless the kind is [Bool]; so do [Int], [Uint],
    [Float] and [Complex] outside their kinds. *)
Definition Value_Bool (v : Value) : prog bool :=
  match v with
  | VBool b => Pure b
  | _ => Throw (ValueError "reflect.Value.Bool" (Kind v))
  end.

Definition Value_Int (v : Value) : prog Z :=
  match v with
  | VInt _ n => Pure n
  | _ => Throw (ValueError "reflect.Value.Int" (Kind v))
  end.

Definition Value_Uint (v : Value) : prog Z :=
  match v with
  | VUint _ n => Pure n
  | _ => Throw (ValueError "reflect.Value.Uint" (Kind v))
  end.

Definition Value_Float (v : Value) : prog float :=
  match v with
  | VFloat _ f => Pure f
  | _ => Throw (ValueError "reflect.Value.Float" (Kind v))
  end.

Definition Value_Complex (v : Value) : prog complex128 :=
  match v with
  | VComplex _ c => Pure c
  | _ => Throw (ValueError "reflect.Value.Complex" (Kind v))
  end.

(** [Value.String] does not panic: outside the kind [String] it prints the
    type between angle brackets.  Types are not part of the model, the
    kind's name stands for the type's. *)
Definition Value_String (v : Value) : string :=
  match v with
  | VString s => s
  | VInvalid => "<invalid Value>"
  | _ => "<" ++ reflect.name (Kind v) ++ " Value>"
  end.

(** ** Go's arithmetic on the payloads *)

(** [int64]: [+], [-] and [*] wrap around; [/] truncates toward zero and
    [%] takes the sign of the dividend; both panic on a zero divisor, and
    the one quotient that does not fit, [MinInt64 / -1], wraps around. *)
Definition int64_add (x y : Z) : Z := wrap_int64 (x + y).
Definition int64_sub (x y : Z) : Z := wrap_int64 (x - y).
Definition int64_mul (x y : Z) : Z := wrap_int64 (x * y).

Definition int64_quo (x y : Z) : prog Z :=
  if y =? 0 then Throw DivideError else Pure (wrap_int64 (Z.quot x y)).

Definition int64_rem (x y : Z) : prog Z :=
  if y =? 0 then Throw DivideError else Pure (wrap_int64 (Z.rem x y)).

(** [uint64]: arithmetic modulo [2^64]; [/] and [%] panic on a zero
    divisor. *)
Definition uint64_add (x y : Z) : Z := wrap_uint64 (x + y).
Definition uint64_sub (x y : Z) : Z := wrap_uint64 (x - y).
Definition uint64_mul (x y : Z) : Z := wrap_uint64 (x * y).

Definition uint64_quo (x y : Z) : prog Z :=
  if y =? 0 then Throw DivideError else Pure (wrap_uint64 (x / y)).

Definition uint64_rem (x y : Z) : prog Z :=
  if y =? 0 then Throw DivideError else Pure (wrap_uint64 (x mod y)).

(** [complex128]: sum, difference and product by components. *)
Definition complex128_add (n m : complex128) : complex128 :=
  complex (real n + real m)%float (imag n + imag m)%float.

Definition complex128_sub (n m : complex128) : complex128 :=
  complex (real n - real m)%float (imag n - imag m)%float.

Definition complex128_mul (n m : complex128) : complex128 :=
  complex (real n * real m - imag n * imag m)%float
          (real n * imag m + imag n * real m)%float.

Definition copysign (f sign : float) : float :=
  if get_sign sign then (- abs f)%float else abs f.

Definition inf2one (f : float) : float :=
  copysign (if is_infinity f then one else zero) f.

(** The quotient of the Go runtime ([complex128div]): Smith's algorithm,
    then the correction of a result with two NaNs to infinities and
    zeros. *)
Definition complex128_quo (n m : complex128) : complex128 :=
  let a := real n in
  let b := imag n in
  let c := real m in
  let d := imag m in
  let ef :=
    if (abs d <=? abs c)%float then
      let ratio := (d / c)%float in
      let denom := (c + ratio * d)%float in
      (((a + b * ratio) / denom)%float, ((b - a * ratio) / denom)%float)
    else
      let ratio := (c / d)%float in
      let denom := (d + ratio * c)%float in
      (((a * ratio + b) / denom)%float, ((b * ratio - a) / denom)%float) in
  let ef :=
    if is_nan (fst ef) && is_nan (snd ef) then
      if (is_zero c && is_zero d) && (negb (is_nan a) || negb (is_nan b))
      then
        ((copysign infinity c * a)%float, (copysign infinity c * b)%float)
      else if (is_infinity a || is_infinity b) && is_finite c && is_finite d
      then
        let a := inf2one a in
        let b := inf2one b in
        ((infinity * (a * c + b * d))%float,
         (infinity * (b * c - a * d))%float)
      else if (is_infinity c || is_infinity d) && is_finite a && is_finite b
      then
        let c := inf2one c in
        let d := inf2one d in
        ((zero * (a * c + b * d))%float, (zero * (b * c - a * d))%float)
      else ef
    else ef in
  complex (fst ef) (snd ef).

(** ** The errors the executors build *)

(** [fmt.Errorf(format, kind)] and [fmt.Errorf(format, kind, kind)], the
    formats ending in [%v] and in [%v, %v]. *)
Definition Errorf1 (prefix : string) (k : reflect.Kind) : error :=
  errorString (prefix ++ reflect.name k).

Definition Errorf2 (prefix : string) (k1 k2 : reflect.Kind) : error :=
  errorString (prefix ++ reflect.name k1 ++ ", " ++ reflect.name k2).

(** [ErrUnsupportedBinaryExpr]. *)
Definition ErrUnsupportedBinaryExpr : error :=
  errorString "unsupported binary expression".

(** The last statement of the arithmetic executors. *)
Definition unsupported (right left : Value) : prog result :=
  Pure (invalidValue,
        Some (Errorf2 "unsupported expression: " (Kind right) (Kind left))).

(** [reflect.Int <= k && k <= reflect.Int64] and
    [reflect.Uint <= k && k <= reflect.Uint64]. *)
Definition int_range (k : reflect.Kind) : bool :=
  (reflect.Int <=k k) && (k <=k reflect.Int64).

Definition uint_range (k : reflect.Kind) : bool :=
  (reflect.Uint <=k k) && (k <=k reflect.Uint64).

(** ** The arithmetic executors *)

(** The argument of [Exec] is the pending operand; the source calls it
    [right] and calls [left] the operand the continuation returns. *)

(** [ADDExprExecutor.Exec], the executor for [+]. *)
Definition ADDExprExecutor_Exec (right : Value) : prog result :=
  ret <- next ;; let (left, err) := ret in
  match err with
  | Some e => Pure (invalidValue, Some e)
  | None =>
      let right := Unwrap right in
      let left := Unwrap left in
      match Kind right with
      | reflect.Int | reflect.Int8 | reflect.Int16 | reflect.Int32
      | reflect.Int64 =>
          if int_range (Kind left) then
            r <- Value_Int right ;; l <- Value_Int left ;;
            Pure (ValueOf_int64 (int64_add r l), None)
          else if uint_range (Kind left) then
            r <- Value_Int right ;; l <- Value_Uint left ;;
            Pure (ValueOf_uint64 (uint64_add (uint64_of_int64 r) l), None)
          else unsupported right left
      | reflect.Uint | reflect.Uint8 | reflect.Uint16 | reflect.Uint32
      | reflect.Uint64 =>
          if int_range (Kind left) then
            r <- Value_Uint right ;; l <- Value_Int left ;;
            Pure (ValueOf_uint64 (uint64_add r (uint64_of_int64 l)), None)
          else if uint_range (Kind left) then
            r <- Value_Uint right ;; l <- Value_Uint left ;;
            Pure (ValueOf_uint64 (uint64_add r l), None)
          else unsupported right left
      | reflect.Float32 | reflect.Float64 =>
          match Kind left with
          | reflect.Float32 | reflect.Float64 =>
              r <- Value_Float right ;; l <- Value_Float left ;;
              Pure (ValueOf_float64 (r + l)%float, None)
          | _ => unsupported right left
          end
      | reflect.String =>
          match Kind left with
          | reflect.String =>
              Pure (ValueOf_string (Value_String right ++ Value_String left),
                    None)
          | _ => unsupported right left
          end
      | reflect.Complex64 | reflect.Complex128 =>
          match Kind left with
          | reflect.Complex64 | reflect.Complex128 =>
              r <- Value_Complex right ;; l <- Value_Complex left ;;
              Pure (ValueOf_complex128 (complex128_add r l), None)
          | _ => unsupported right left
          end
      | _ => unsupported right left
      end
  end.

(** [SUBExprExecutor.Exec], the executor for [-]. *)
Definition SUBExprExecutor_Exec (right : Value) : prog result :=
  ret <- next ;; let (left, err) := ret in
  match err with
  | Some e => Pure (invalidValue, Some e)
  | None =>
      let right := Unwrap right in
      let left := Unwrap left in
      match Kind right with
      | reflect.Int | reflect.Int8 | reflect.Int16 | reflect.Int32
      | reflect.Int64 =>
          if int_range (Kind left) then
            r <- Value_Int right ;; l <- Value_Int left ;;
            Pure (ValueOf_int64 (int64_sub r l), None)
          else if uint_range (Kind left) then
            r <- Value_Int right ;; l <- Value_Uint left ;;
            Pure (ValueOf_uint64 (uint64_sub (uint64_of_int64 r) l), None)
          else unsupported right left
      | reflect.Uint | reflect.Uint8 | reflect.Uint16 | reflect.Uint32
      | reflect.Uint64 =>
          if int_range (Kind left) then
            r <- Value_Uint right ;; l <- Value_Int left ;;
            Pure (ValueOf_uint64 (uint64_sub r (uint64_of_int64 l)), None)
          else if uint_range (Kind left) then
            r <- Value_Uint right ;; l <- Value_Uint left ;;
            Pure (ValueOf_uint64 (uint64_sub r l), None)
          else unsupported right left
      | reflect.Float32 | reflect.Float64 =>
          match Kind left with
          | reflect.Float32 | reflect.Float64 =>
              r <- Value_Float right ;; l <- Value_Float left ;;
              Pure (ValueOf_float64 (r - l)%float, None)
          | _ => unsupported right left
          end
      | reflect.Complex64 | reflect.Complex128 =>
          match Kind left with
          | reflect.Complex64 | reflect.Complex128 =>
              r <- Value_Complex right ;; l <- Value_Complex left ;;
              Pure (ValueOf_complex128 (complex128_sub r l), None)
          | _ => unsupported right left
          end
      | _ => unsupported right left
      end
  end.

(** [MULExprExecutor.Exec], the executor for [*]. *)
Definition MULExprExecutor_Exec (right : Value) : prog result :=
  ret <- next ;; let (left, err) := ret in
  match err with
  | Some e => Pure (invalidValue, Some e)
  | None =>
      let right := Unwrap right in
      let left := Unwrap left in
      match Kind right with
      | reflect.Int | reflect.Int8 | reflect.Int16 | reflect.Int32
      | reflect.Int64 =>
          if int_range (Kind left) then
            r <- Value_Int right ;; l <- Value_Int left ;;
            Pure (ValueOf_int64 (int64_mul r l), None)
          else if uint_range (Kind left) then
            r <- Value_Int right ;; l <- Value_Uint left ;;
            Pure (ValueOf_uint64 (uint64_mul (uint64_of_int64 r) l), None)
          else unsupported right left
      | reflect.Uint | reflect.Uint8 | reflect.Uint16 | reflect.Uint32
      | reflect.Uint64 =>
          if int_range (Kind left) then
            r <- Value_Uint right ;; l <- Value_Int left ;;
            Pure (ValueOf_uint64 (uint64_mul r (uint64_of_int64 l)), None)
          else if uint_range (Kind left) then
            r <- Value_Uint right ;; l <- Value_Uint left ;;
            Pure (ValueOf_uint64 (uint64_mul r l), None)
          else unsupported right left
      | reflect.Float32 | reflect.Float64 =>
          match Kind left with
          | reflect.Float32 | reflect.Float64 =>
              r <- Value_Float right ;; l <- Value_Float left ;;
              Pure (ValueOf_float64 (r * l)%float, None)
          | _ => unsupported right left
          end
      | reflect.Complex64 | reflect.Complex128 =>
          match Kind left with
          | reflect.Complex64 | reflect.Complex128 =>
              r <- Value_Complex right ;; l <- Value_Complex left ;;
              Pure (ValueOf_complex128 (complex128_mul r l), None)
          | _ => unsupported right left
          end
      | _ => unsupported right left
      end
  end.

(** [QUOExprExecutor.Exec], the executor for [/]. *)
Definition QUOExprExecutor_Exec (right : Value) : prog result :=
  ret <- next ;; let (left, err) := ret in
  match err with
  | Some e => Pure (invalidValue, Some e)
  | None =>
      let right := Unwrap right in
      let left := Unwrap left in
      match Kind right with
      | reflect.Int | reflect.Int8 | reflect.Int16 | reflect.Int32
      | reflect.Int64 =>
          if int_range (Kind left) then
            r <- Value_Int right ;; l <- Value_Int left ;;
            q <- int64_quo r l ;;
            Pure (ValueOf_int64 q, None)
          else if uint_range (Kind left) then
            r <- Value_Int right ;; l <- Value_Uint left ;;
            q <- uint64_quo (uint64_of_int64 r) l ;;
            Pure (ValueOf_uint64 q, None)
          else unsupported right left
      | reflect.Uint | reflect.Uint8 | reflect.Uint16 | reflect.Uint32
      | reflect.Uint64 =>
          if int_range (Kind left) then
            r <- Value_Uint right ;; l <- Value_Int left ;;
            q <- uint64_quo r (uint64_of_int64 l) ;;
            Pure (ValueOf_uint64 q, None)
          else if uint_range (Kind left) then
            r <- Value_Uint right ;; l <- Value_Uint left ;;
            q <- uint64_quo r l ;;
            Pure (ValueOf_uint64 q, None)
          else unsupported right left
      | reflect.Float32 | reflect.Float64 =>
          match Kind left with
          | reflect.Float32 | reflect.Float64 =>
              r <- Value_Float right ;; l <- Value_Float left ;;
              Pure (ValueOf_float64 (r / l)%float, None)
          | _ => unsupported right left
          end
      | reflect.Complex64 | reflect.Complex128 =>
          match Kind left with
          | reflect.Complex64 | reflect.Complex128 =>
              r <- Value_Complex right ;; l <- Value_Complex left ;;
              Pure (ValueOf_complex128 (complex128_quo r l), None)
          | _ => unsupported right left
          end
      | _ => unsupported right left
      end
  end.

(** [REMExprExecutor.Exec], the executor for [%]. *)
Definition REMExprExecutor_Exec (right : Value) : prog result :=
  ret <- next ;; let (left, err) := ret in
  match err with
  | Some e => Pure (invalidValue, Some e)
  | None =>
      let right := Unwrap right in
      let left := Unwrap left in
      match Kind right with
      | reflect.Int | reflect.Int8 | reflect.Int16 | reflect.Int32
      | reflect.Int64 =>
          if int_range (Kind left) then
            r <- Value_Int right ;; l <- Value_Int left ;;
            q <- int64_rem r l ;;
            Pure (ValueOf_int64 q, None)
          else if uint_range (Kind left) then
            r <- Value_Int right ;; l <- Value_Uint left ;;
            q <- uint64_rem (uint64_of_int64 r) l ;;
            Pure (ValueOf_uint64 q, None)
          else unsupported right left
      | reflect.Uint | reflect.Uint8 | reflect.Uint16 | reflect.Uint32
      | reflect.Uint64 =>
          if int_range (Kind left) then
            r <- Value_Uint right ;; l <- Value_Int left ;;
            q <- uint64_rem r (uint64_of_int64 l) ;;
            Pure (ValueOf_uint64 q, None)
          else if uint_range (Kind left) then
            r <- Value_Uint right ;; l <- Value_Uint left ;;
            q <- uint64_rem r l ;;
            Pure (ValueOf_uint64 q, None)
          else unsupported right left
      | _ => unsupported right left
      end
  end.

(** ** The logical executors *)

(** [LANDExprExecutor.Exec], the executor for [&&].  After the call of
    [next] the source tests the kind of [left] a second time. *)
Definition LANDExprExecutor_Exec (left : Value) : prog result :=
  let left := Unwrap left in
  if negb (reflect.eqb (Kind left) reflect.Bool) then
    Pure (invalidValue,
          Some (Errorf1 "unsupported expression: " (Kind left)))
  else
    b <- Value_Bool left ;;
    if negb b then Pure (left, None)
    else
      ret <- next ;; let (right, err) := ret in
      match err with
      | Some e => Pure (invalidValue, Some e)
      | None =>
          let right := Unwrap right in
          if negb (reflect.eqb (Kind left) reflect.Bool) then
            Pure (invalidValue,
                  Some (Errorf1 "unsupported expression: " (Kind left)))
          else Pure (right, None)
      end.

(** [LORExprExecutor.Exec], the executor for [||]. *)
Definition LORExprExecutor_Exec (left : Value) : prog result :=
  let left := Unwrap left in
  if negb (reflect.eqb (Kind left) reflect.Bool) then
    Pure (invalidValue,
          Some (Errorf1 "unsupported expression: " (Kind left)))
  else
    b <- Value_Bool left ;;
    if b then Pure (left, None)
    else
      ret <- next ;; let (right, err) := ret in
      match err with
      | Some e => Pure (invalidValue, Some e)
      | None =>
          let right := Unwrap right in
          if negb (reflect.eqb (Kind right) reflect.Bool) then
            Pure (invalidValue,
                  Some (Errorf1 "unsupported expression: " (Kind right)))
          else Pure (right, None)
      end.

(** [ANDExprExecutor.Exec]. *)
Definition ANDExprExecutor_Exec (right : Value) : prog result :=
  let right := Unwrap right in
  if negb (reflect.eqb (Kind right) reflect.Bool) then
    Pure (invalidValue,
          Some (Errorf1 "unsupported and expression: " (Kind right)))
  else
    b <- Value_Bool right ;;
    if negb b then Pure (right, None)
    else
      ret <- next ;; let (left, err) := ret in
      match err with
      | Some e => Pure (invalidValue, Some e)
      | None =>
          let left := Unwrap left in
          if negb (reflect.eqb (Kind left) reflect.Bool) then
            Pure (invalidValue,
                  Some (Errorf1 "unsupported and expression: " (Kind left)))
          else Pure (left, None)
      end.

(** [ORExprExecutor.Exec]. *)
Definition ORExprExecutor_Exec (right : Value) : prog result :=
  let right := Unwrap right in
  if negb (reflect.eqb (Kind right) reflect.Bool) then
    Pure (invalidValue,
          Some (Errorf1 "unsupported or expression: " (Kind right)))
  else
    b <- Value_Bool right ;;
    if b then Pure (right, None)
    else
      ret <- next ;; let (left, err) := ret in
      match err with
      | Some e => Pure (invalidValue, Some e)
      | None =>
          let left := Unwrap left in
          if negb (reflect.eqb (Kind left) reflect.Bool) then
            Pure (invalidValue,
                  Some (Errorf1 "unsupported or expression: " (Kind left)))
          else Pure (left, None)
      end.

(** [NOTExprExecutor.Exec], the executor for [!]: the fetched value is
    read with [Bool] as it comes, neither unwrapped nor tested. *)
Definition NOTExprExecutor_Exec (_ : Value) : prog result :=
  ret <- next ;; let (right, err) := ret in
  match err with
  | Some e => Pure (invalidValue, Some e)
  | None => b <- Value_Bool right ;; Pure (ValueOf_bool (negb b), None)
  end.

(** ** Grouping and comments *)

(** [LPARENExprExecutor.Exec], the executor for an opening parenthesis. *)
Definition LPARENExprExecutor_Exec (_ : Value) : prog result := next.

(** [RPARENExprExecutor.Exec]: it just returns the value. *)
Definition RPARENExprExecutor_Exec (right : Value) : prog result :=
  Pure (right, None).

(** [COMMENTExprExecutor.Exec]. *)
Definition COMMENTExprExecutor_Exec (_ : Value) : prog result :=
  Pure (ValueOf_bool true, None).

(** ** The comparison executors *)

(** The interface [Comparer]: its method [Compare]. *)
Definition Comparer : Type := Value -> Value -> bool * option error.

(** [ComparerExprExecutor.Exec]. *)
Definition ComparerExprExecutor_Exec (c : Comparer) (left : Value)
  : prog result :=
  ret <- next ;; let (right, err) := ret in
  match err with
  | Some e => Pure (invalidValue, Some e)
  | None =>
      let (ok, err) := c left right in
      match err with
      | Some e => Pure (invalidValue, Some e)
      | None => if ok then Pure (trueValue, None) else Pure (falseValue, None)
      end
  end.

(** ** go/token *)

Module token.

(** [token.Token] is an [int]. *)
Definition Token : Type := Z.

(** The constants of [go/token] up to the end of the operators, numbered
    by [iota]. *)
Definition ILLEGAL : Token := 0.
Definition EOF : Token := 1.
Definition COMMENT : Token := 2.
Definition IDENT : Token := 4.
Definition INT : Token := 5.
Definition FLOAT : Token := 6.
Definition IMAG : Token := 7.
Definition CHAR : Token := 8.
Definition STRING : Token := 9.
Definition ADD : Token := 12.
Definition SUB : Token := 13.
Definition MUL : Token := 14.
Definition QUO : Token := 15.
Definition REM : Token := 16.
Definition AND : Token := 17.
Definition OR : Token := 18.
Definition XOR : Token := 19.
Definition SHL : Token := 20.
Definition SHR : Token := 21.
Definition AND_NOT : Token := 22.
Definition LAND : Token := 34.
Definition LOR : Token := 35.
Definition ARROW : Token := 36.
Definition INC : Token := 37.
Definition DEC : Token := 38.
Definition EQL : Token := 39.
Definition LSS : Token := 40.
Definition GTR : Token := 41.
Definition ASSIGN : Token := 42.
Definition NOT : Token := 43.
Definition NEQ : Token := 44.
Definition LEQ : Token := 45.
Definition GEQ : Token := 46.
Definition DEFINE : Token := 47.
Definition ELLIPSIS : Token := 48.
Definition LPAREN : Token := 49.
Definition LBRACK : Token := 50.
Definition LBRACE : Token := 51.
Definition COMMA : Token := 52.
Definition PERIOD : Token := 53.
Definition RPAREN : Token := 54.
Definition RBRACK : Token := 55.
Definition RBRACE : Token := 56.
Definition SEMICOLON : Token := 57.
Definition COLON : Token := 58.

End token.

(** ** The registry *)

(** The types that implement [BinaryExprExecutor]. *)
Inductive BinaryExprExecutor : Type :=
| EQLExprExecutor | NEQExprExecutor | LSSExprExecutor | LEQExprExecutor
| GTRExprExecutor | GEQExprExecutor
| LANDExprExecutor | LORExprExecutor
| ADDExprExecutor | SUBExprExecutor | MULExprExecutor | QUOExprExecutor
| REMExprExecutor
| LPARENExprExecutor | RPARENExprExecutor | COMMENTExprExecutor
| NOTExprExecutor | ANDExprExecutor | ORExprExecutor.

(** [FromToken]: the executor, or nil and [ErrUnsupportedBinaryExpr]. *)
Definition FromToken (t : token.Token)
  : option BinaryExprExecutor * option error :=
  if t =? token.EQL then (Some EQLExprExecutor, None)
  else if t =? token.NEQ then (Some NEQExprExecutor, None)
  else if t =? token.LSS then (Some LSSExprExecutor, None)
  else if t =? token.LEQ then (Some LEQExprExecutor, None)
  else if t =? token.GTR then (Some GTRExprExecutor, None)
  else if t =? token.GEQ then (Some GEQExprExecutor, None)
  else if t =? token.LAND then (Some LANDExprExecutor, None)
  else if t =? token.LOR then (Some LORExprExecutor, None)
  else if t =? token.ADD then (Some ADDExprExecutor, None)
  else if t =? token.SUB then (Some SUBExprExecutor, None)
  else if t =? token.MUL then (Some MULExprExecutor, None)
  else if t =? token.QUO then (Some QUOExprExecutor, None)
  else if t =? token.REM then (Some REMExprExecutor, None)
  else if t =? token.LPAREN then (Some LPARENExprExecutor, None)
  else if t =? token.RPAREN then (Some RPARENExprExecutor, None)
  else if t =? token.COMMENT then (Some COMMENTExprExecutor, None)
  else if t =? token.NOT then (Some NOTExprExecutor, None)
  else if t =? token.AND then (Some ANDExprExecutor, None)
  else if t =? token.OR then (Some ORExprExecutor, None)
  else (None, Some ErrUnsupportedBinaryExpr).

(** The tokens the switch of [FromToken] has a case for. *)
Definition operator_tokens : list token.Token :=
  [token.EQL; token.NEQ; token.LSS; token.LEQ; token.GTR; token.GEQ;
   token.LAND; token.LOR; token.ADD; token.SUB; token.MUL; token.QUO;
   token.REM; token.NOT; token.AND; token.OR; token.LPAREN; token.RPAREN;
   token.COMMENT].

(** The method [Exec] of the interface.  The comparers the six comparison
    executors hand to [ComparerExprExecutor] are not among the sources
    embedded here; they are variables of the section. *)
Section Exec.

Variables EqualComparer NotEqualComparer LessThanComparer
  LessThanOrEqualComparer GreaterThanComparer GreaterThanOrEqualComparer
  : Comparer.

Definition Exec (x : BinaryExprExecutor) (v : Value) : prog result :=
  match x with
  | EQLExprExecutor => ComparerExprExecutor_Exec EqualComparer v
  | NEQExprExecutor => ComparerExprExecutor_Exec NotEqualComparer v
  | LSSExprExecutor => ComparerExprExecutor_Exec LessThanComparer v
  | LEQExprExecutor => ComparerExprExecutor_Exec LessThanOrEqualComparer v
  | GTRExprExecutor => ComparerExprExecutor_Exec GreaterThanComparer v
  | GEQExprExecutor =>
      ComparerExprExecutor_Exec GreaterThanOrEqualComparer v
  | LANDExprExecutor => LANDExprExecutor_Exec v
  | LORExprExecutor => LORExprExecutor_Exec v
  | ADDExprExecutor => ADDExprExecutor_Exec v
  | SUBExprExecutor => SUBExprExecutor_Exec v
  | MULExprExecutor => MULExprExecutor_Exec v
  | QUOExprExecutor => QUOExprExecutor_Exec v
  | REMExprExecutor => REMExprExecutor_Exec v
  | LPARENExprExecutor => LPARENExprExecutor_Exec v
  | RPARENExprExecutor => RPARENExprExecutor_Exec v
  | COMMENTExprExecutor => COMMENTExprExecutor_Exec v
  | NOTExprExecutor => NOTExprExecutor_Exec v
  | ANDExprExecutor => ANDExprExecutor_Exec v
  | ORExprExecutor => ORExprExecutor_Exec v
  end.

End Exec.

(** ** Operands and continuations of the properties *)

(** The continuation that returns [v] and a nil error whenever called. *)
Definition returning (v : Value) : continuation :=
  fun _ => Returned (v, None).

(** The payload of a value of one of the signed kinds [Int] to [Int64]. *)
Definition signed_operand (v : Value) : option Z :=
  match v with
  | VInt _ n => Some n
  | _ => None
  end.

(** The payload of a value of one of the unsigned kinds [Uint] to
    [Uint64], the ones the executors have a case for. *)
Definition unsigned_operand (v : Value) : option Z :=
  match v with
  | VUint k n => if uint_range (kind_of_uint k) then Some n else None
  | _ => None
  end.

(** The payload of a value of integer kind, signed or unsigned. *)
Definition integer_operand (v : Value) : option Z :=
  match signed_operand v with
  | Some n => Some n
  | None => unsigned_operand v
  end.

(** The call returns a failure: some error, not nil. *)
Definition returns_error (m : prog result) (nxt : continuation) : Prop :=
  exists v e, behaviour m nxt = Returned (v, Some e).

(** The five arithmetic executors. *)
Inductive arith : Type := ADD | SUB | MUL | QUO | REM.

Definition arith_Exec (op : arith) : Value -> prog result :=
  match op with
  | ADD => ADDExprExecutor_Exec
  | SUB => SUBExprExecutor_Exec
  | MUL => MULExprExecutor_Exec
  | QUO => QUOExprExecutor_Exec
  | REM => REMExprExecutor_Exec
  end.

(** The operation on mathematical integers ([/] and [%] on naturals). *)
Definition arith_Z (op : arith) (a b : Z) : Z :=
  match op with
  | ADD => a + b
  | SUB => a - b
  | MUL => a * b
  | QUO => a / b
  | REM => a mod b
  end.

(** A division or a remainder needs a divisor that is not zero. *)
Definition divisor_ok (op : arith) (d : Z) : Prop :=
  match op with
  | QUO | REM => d <> 0
  | _ => True
  end.

(** How a mixed operation ends according to C7, the two operands read as
    [uint64]: the executor returns the result of the operation modulo
    [2 ^ 64] as a value of kind [Uint64] with a nil error; a [/] or a [%]
    by zero has no result, it panics with Go's integer divide error. *)
Definition uint64_outcome (op : arith) (a b : Z) : outcome result :=
  let r := Returned (VUint KUint64 (wrap_uint64 (arith_Z op a b)), None) in
  match op with
  | QUO | REM => if b =? 0 then Panicked DivideError else r
  | _ => r
  end.

(** Two errors are the same up to the wording of a type error: they are
    equal, or they are two type errors on the same kind that differ in
    their prefixes. *)
Definition same_error (prefix1 prefix2 : string) (e1 e2 : option error)
  : Prop :=
  e1 = e2 \/
  exists k, e1 = Some (Errorf1 prefix1 k) /\ e2 = Some (Errorf1 prefix2 k).

(** Two calls end the same way up to the wording of a type error: the same
    number of invocations of the continuation and the same value and error,
    the same panic, or no return in either. *)
Definition agree (prefix1 prefix2 : string)
  (o1 o2 : outcome result * nat) : Prop :=
  snd o1 = snd o2 /\
  match fst o1, fst o2 with
  | Returned (v1, e1), Returned (v2, e2) =>
      v1 = v2 /\ same_error prefix1 prefix2 e1 e2
  | Panicked p1, Panicked p2 => p1 = p2
  | Diverged, Diverged => True
  | _, _ => False
  end.

(** ** The table of the arithmetic executors *)

(** The classes of operands the arithmetic executors tell apart by kind:
    the signed integers, the unsigned integers [Uint] to [Uint64], the
    floats, the complex numbers, the texts, and everything else (the zero
    Value, booleans, [Uintptr], aggregates). *)
Inductive operand_class : Type :=
| Signed | Unsigned | Floating | ComplexNumber | Text | NoOperand.

Definition class_of (v : Value) : operand_class :=
  match v with
  | VInt _ _ => Signed
  | VUint k _ => if uint_range (kind_of_uint k) then Unsigned else NoOperand
  | VFloat _ _ => Floating
  | VComplex _ _ => ComplexNumber
  | VString _ => Text
  | _ => NoOperand
  end.

(** The pairs of classes an executor has a branch for. *)
Definition supported (op : arith) (pending fetched : operand_class) : bool :=
  match pending, fetched with
  | (Signed | Unsigned), (Signed | Unsigned) => true
  | Floating, Floating | ComplexNumber, ComplexNumber =>
      match op with REM => false | _ => true end
  | Text, Text => match op with ADD => true | _ => false end
  | _, _ => false
  end.

(** The kind of the value a branch builds. *)
Definition result_kind (pending fetched : operand_class) : reflect.Kind :=
  match pending, fetched with
  | Signed, Signed => reflect.Int64
  | Signed, Unsigned | Unsigned, Signed | Unsigned, Unsigned =>
      reflect.Uint64
  | Floating, _ => reflect.Float64
  | ComplexNumber, _ => reflect.Complex128
  | Text, _ => reflect.String
  | _, _ => reflect.Invalid
  end.

(** The executors that start with the call of [next], and the ones that
    have no call of it. *)
Definition fetches_first (x : BinaryExprExecutor) : bool :=
  match x with
  | LANDExprExecutor | LORExprExecutor | ANDExprExecutor | ORExprExecutor
  | RPARENExprExecutor | COMMENTExprExecutor => false
  | _ => true
  end.

Definition never_fetches (x : BinaryExprExecutor) : bool :=
  match x with
  | RPARENExprExecutor | COMMENTExprExecutor => true
  | _ => false
  end.

(** A program with no call of [next] left. *)
Definition silent {A : Type} (m : prog A) : Prop :=
  match m with
  | CallNext _ => False
  | _ => True
  end.

(** The executors for [/] and [%], and the integer classes. *)
Definition is_division (op : arith) : bool :=
  match op with QUO | REM => true | _ => false end.

Definition is_integer (c : operand_class) : bool :=
  match c with Signed | Unsigned => true | _ => false end.

(** On an error, the value an executor returns beside it is the invalid
    Value. *)
Definition error_value_invalid (o : outcome result) : Prop :=
  match o with
  | Returned (w, Some _) => w = invalidValue
  | _ => True
  end.

(** A comparer that holds of every pair. *)
Definition always_true : Comparer := fun _ _ => (true, None).

(** * The package juice *)

Module juice.

(** ** Strings and maps of Go *)

(** [strings.HasSuffix] and [strings.TrimSuffix]. *)
Definition HasSuffix (s suffix : string) : bool :=
  (String.length suffix <=? String.length s)%nat &&
  String.eqb
    (substring (String.length s - String.length suffix)
       (String.length suffix) s)
    suffix.

Definition TrimSuffix (s suffix : string) : string :=
  if HasSuffix s suffix
  then substring 0 (String.length s - String.length suffix) s
  else s.

(** A [strings.Replacer] whose old strings are single bytes, as those of
    [replacer] are: each byte of the input is replaced by the new string of
    the first pair that has it, and copied when no pair has it. *)
Fixpoint replacement (pairs : list (ascii * string)) (c : ascii) : string :=
  match pairs with
  | [] => String c EmptyString
  | (old, new) :: rest =>
      if Ascii.eqb c old then new else replacement rest c
  end.

Fixpoint Replace (pairs : list (ascii * string)) (s : string) : string :=
  match s with
  | EmptyString => EmptyString
  | String c rest => replacement pairs c ++ Replace pairs rest
  end.

(** A Go map, seen through its lookups: [m[key] = value] puts a binding in
    front of the older ones, a lookup takes the first binding of the
    key. *)
Definition gomap (K V : Type) : Type := list (K * V).

Fixpoint map_get {K V : Type} (eqb : K -> K -> bool) (m : gomap K V)
  (key : K) : option V :=
  match m with
  | [] => None
  | (k, v) :: rest => if eqb key k then Some v else map_get eqb rest key
  end.

Definition map_set {K V : Type} (m : gomap K V) (key : K) (value : V)
  : gomap K V :=
  (key, value) :: m.

(** ** environment.go *)

(** [Environment]; [attrs] is nil until the first [setAttr]. *)
Record Environment : Type := {
  DataSource : string;
  Driver : string;
  MaxIdleConnNum : Z;
  MaxOpenConnNum : Z;
  MaxConnLifetime : Z;
  MaxIdleConnLifetime : Z;
  attrs : option (gomap string string)
}.

(** [Environment.setAttr]: the environment after the call. *)
Definition setAttr (e : Environment) (key value : string) : Environment :=
  let m := match attrs e with
           | None => []
           | Some m => m
           end in
  {| DataSource := DataSource e;
     Driver := Driver e;
     MaxIdleConnNum := MaxIdleConnNum e;
     MaxOpenConnNum := MaxOpenConnNum e;
     MaxConnLifetime := MaxConnLifetime e;
     MaxIdleConnLifetime := MaxIdleConnLifetime e;
     attrs := Some (map_set m key value) |}.

(** [Environment.Attr]: a key with no binding reads as the empty
    string, in a nil map as well. *)
Definition Attr (e : Environment) (key : string) : string :=
  match attrs e with
  | None => ""
  | Some m =>
      match map_get String.eqb m key with
      | Some v => v
      | None => ""
      end
  end.

(** [Environment.ID]. *)
Definition ID (e : Environment) : string := Attr e "id".

(** The implementations of [EnvValueProvider]: the two of this file, and
    the ones a caller registers. *)
Inductive EnvValueProvider : Type :=
| ValueProvider
| OsEnvValueProvider
| CustomProvider (id : nat).

(** [envValueProviderLibraries], a package variable: the registry is
    passed along. *)
Definition Libraries : Type := gomap string EnvValueProvider.

(** [RegisterEnvValueProvider]. *)
Definition RegisterEnvValueProvider (libs : Libraries) (name : string)
  (provider : EnvValueProvider) : Libraries :=
  map_set libs name provider.

(** [defaultEnvValueProvider]. *)
Definition defaultEnvValueProvider : EnvValueProvider := ValueProvider.

(** [GetEnvValueProvider]. *)
Definition GetEnvValueProvider (libs : Libraries) (key : string)
  : EnvValueProvider :=
  match map_get String.eqb libs key with
  | Some provider => provider
  | None => defaultEnvValueProvider
  end.

(** [init]: the registry as the package leaves it. *)
Definition init : Libraries :=
  RegisterEnvValueProvider [] "env" OsEnvValueProvider.

(** [Environment.provider]. *)
Definition provider (libs : Libraries) (e : Environment)
  : EnvValueProvider :=
  GetEnvValueProvider libs (Attr e "provider").

(** [Environments]. *)
Record Environments : Type := {
  Default : string;
  envs : gomap string Environment
}.

(** [Environments.Use] and [Environments.DefaultEnv]: the
    environment, or nil and the error. *)
Definition Use (e : Environments) (id : string)
  : option Environment * option error :=
  match map_get String.eqb (envs e) id with
  | Some env => (Some env, None)
  | None => (None, Some (errorString "environment not found"))
  end.

Definition DefaultEnv (e : Environments)
  : option Environment * option error :=
  Use e (Default e).

(** A sequence of [setAttr], first to last. *)
Definition setAttrs (e : Environment) (settings : list (string * string))
  : Environment :=
  fold_left (fun e kv => setAttr e (fst kv) (snd kv)) settings e.

(** ** Connections *)

(** A [*sql.DB], seen through the limits set on it: the argument of the
    last call of each setter, none when the setter was not called.  A
    [time.Duration] is an [int64] of nanoseconds. *)
Record DB : Type := {
  MaxIdleConns : option Z;
  MaxOpenConns : option Z;
  ConnMaxLifetime : option Z;
  ConnMaxIdleTime : option Z
}.

Definition opened : DB :=
  {| MaxIdleConns := None; MaxOpenConns := None;
     ConnMaxLifetime := None; ConnMaxIdleTime := None |}.

Definition SetMaxIdleConns (db : DB) (n : Z) : DB :=
  {| MaxIdleConns := Some n; MaxOpenConns := MaxOpenConns db;
     ConnMaxLifetime := ConnMaxLifetime db;
     ConnMaxIdleTime := ConnMaxIdleTime db |}.

Definition SetMaxOpenConns (db : DB) (n : Z) : DB :=
  {| MaxIdleConns := MaxIdleConns db; MaxOpenConns := Some n;
     ConnMaxLifetime := ConnMaxLifetime db;
     ConnMaxIdleTime := ConnMaxIdleTime db |}.

Definition SetConnMaxLifetime (db : DB) (d : Z) : DB :=
  {| MaxIdleConns := MaxIdleConns db; MaxOpenConns := MaxOpenConns db;
     ConnMaxLifetime := Some d;
     ConnMaxIdleTime := ConnMaxIdleTime db |}.

(** [time.Second], and the product [time.Duration(n) * time.Second]. *)
Definition Second : Z := 1000000000.

Definition seconds (n : Z) : Z := wrap_int64 (n * Second).

Section Connect.

(** [sql.Open]: the error, if the driver is not known. *)
Variable sql_Open : string -> string -> option error.

(** [Environment.Connect]. *)
Definition Connect (e : Environment) : option DB * option error :=
  match sql_Open (Driver e) (DataSource e) with
  | Some err => (None, Some err)
  | None =>
      let db := opened in
      let db := if MaxIdleConnNum e >? 0
                then SetMaxIdleConns db (MaxIdleConnNum e) else db in
      let db := if MaxOpenConnNum e >? 0
                then SetMaxOpenConns db (MaxOpenConnNum e) else db in
      let db := if MaxConnLifetime e >? 0
                then SetConnMaxLifetime db (seconds (MaxConnLifetime e))
                else db in
      let db := if MaxIdleConnLifetime e >? 0
                then SetConnMaxLifetime db (seconds (MaxIdleConnLifetime e))
                else db in
      (Some db, None)
  end.

End Connect.

(** ** The names of functions *)

(** [replacer]. *)
Definition replacer : list (ascii * string) :=
  [("/"%char, "."); ("\"%char, "."); ("*"%char, ""); ("("%char, "");
   (")"%char, "")].

Section RuntimeFuncName.

(** [runtime.FuncForPC(addr).Name()], which the Go runtime provides. *)
Variable FuncForPC_Name : Z -> string.

(** [runtimeFuncName]. *)
Definition runtimeFuncName (addr : Z) : string :=
  let name := FuncForPC_Name addr in
  let name := Replace replacer name in
  TrimSuffix name "-fm".

(** The function [_cachedRuntimeFuncName] returns, with the [sync.Map] it
    closes over passed along: the name, and the cache after the call. *)
Definition cachedRuntimeFuncName (cache : gomap Z string) (addr : Z)
  : string * gomap Z string :=
  match map_get Z.eqb cache addr with
  | Some name => (name, cache)
  | None =>
      let name := runtimeFuncName addr in
      (name, map_set cache addr name)
  end.

(** A sequence of calls on one cache: the names returned, in order, and
    the cache left. *)
Fixpoint cached_calls (cache : gomap Z string) (addrs : list Z)
  : list string * gomap Z string :=
  match addrs with
  | [] => ([], cache)
  | addr :: rest =>
      let (name, cache) := cachedRuntimeFuncName cache addr in
      let (names, cache) := cached_calls cache rest in
      (name :: names, cache)
  end.

End RuntimeFuncName.

(** ** Errors that wrap errors *)

(** The errors of the package [juice]: the error variables of a package,
    known by their identity; the errors built where they are returned
    ([errors.New], [fmt.Errorf] without [%w]); the errors that wrap another
    one; a [*strconv.NumError], with its function, its input and the error
    variable inside; the errors [errors.Join] builds. *)
#[warnings="-register-all"]
Inductive Err : Type :=
| Sentinel (name : string)
| Fresh (msg : string)
| Wrap (msg : string) (e : Err)
| NumError (func num : string) (err : string)
| Joined (es : list Err).

(** [errors.Is] for a target that is an error variable. *)
Fixpoint Is (err : Err) (target : string) : bool :=
  match err with
  | Sentinel name => String.eqb name target
  | Fresh _ => false
  | Wrap _ e => Is e target
  | NumError _ _ err => String.eqb err target
  | Joined es =>
      (fix any (l : list Err) : bool :=
         match l with
         | [] => false
         | e :: rest => Is e target || any rest
         end) es
  end.

(** [errors.Join]: the nil errors are discarded; nil when all are. *)
Fixpoint non_nil (errs : list (option Err)) : list Err :=
  match errs with
  | [] => []
  | None :: rest => non_nil rest
  | Some e :: rest => e :: non_nil rest
  end.

Definition Join (errs : list (option Err)) : option Err :=
  match non_nil errs with
  | [] => None
  | es => Some (Joined es)
  end.

(** [ErrInvalidManager], [ErrCommitOnSpecific] and [sql.ErrTxDone]. *)
Definition ErrInvalidManager : string := "juice: invalid manager".
Definition ErrCommitOnSpecific : string :=
  "juice: commit on specific transaction".
Definition ErrTxDone : string :=
  "sql: transaction has already been committed or rolled back".

(** ** Transactions *)

(** [sql.TxOptions] and the two option functions. *)
Record TxOptions : Type := { Isolation : Z; ReadOnly : bool }.

Definition TransactionOptionFunc : Type := TxOptions -> TxOptions.

Definition WithIsolationLevel (level : Z) : TransactionOptionFunc :=
  fun options => {| Isolation := level; ReadOnly := ReadOnly options |}.

Definition WithReadOnly (readOnly : bool) : TransactionOptionFunc :=
  fun options => {| Isolation := Isolation options; ReadOnly := readOnly |}.

(** What the manager of the context is: an [*Engine] or not, a
    [TxManager] (as [IsTxManager] decides) or not. *)
Record Manager : Type := { isEngine : bool; isTxManager : bool }.

(** What the transaction and the handler answer when called; each is
    called once at most. *)
Record Answers : Type := {
  begin : option Err;
  handler : option Err;
  commit : option Err;
  rollback : option Err
}.

(** The calls made, in order. *)
Inductive Call : Type := Begin | Handler | Commit | Rollback.

(** The pointer [options] handed to [ContextTx]. *)
Definition options_of (opts : list TransactionOptionFunc)
  : option TxOptions :=
  match opts with
  | [] => None
  | _ =>
      Some (fold_left (fun options opt => opt options) opts
              {| Isolation := 0; ReadOnly := false |})
  end.

(** The deferred function of [Transaction]: it rolls back and joins what
    the rollback returns to the error being returned, unless that is
    [sql.ErrTxDone]. *)
Definition deferred_rollback (a : Answers) (err : option Err)
  : option Err :=
  match rollback a with
  | Some rollbackErr =>
      if negb (Is rollbackErr ErrTxDone)
      then Join [err; Some rollbackErr]
      else err
  | None => err
  end.

(** [Transaction]: the error returned, the calls made and the options the
    transaction was created with. *)
Definition Transaction (manager : Manager)
  (opts : list TransactionOptionFunc) (a : Answers)
  : option Err * list Call * option TxOptions :=
  if negb (isEngine manager) then
    (Some (Sentinel ErrInvalidManager), [], None)
  else
    let options := options_of opts in
    match begin a with
    | Some err => (Some err, [Begin], options)
    | None =>
        match handler a with
        | Some err =>
            if negb (Is err ErrCommitOnSpecific) then
              (deferred_rollback a (Some err),
               [Begin; Handler; Rollback], options)
            else
              (deferred_rollback a (Join [Some err; commit a]),
               [Begin; Handler; Commit; Rollback], options)
        | None =>
            (deferred_rollback a (Join [None; commit a]),
             [Begin; Handler; Commit; Rollback], options)
        end
    end.

(** ** strconv.ParseInt in base 10 at 64 bits *)

Definition ErrSyntax : string := "invalid syntax".
Definition ErrRange : string := "value out of range".

(** The loop of [strconv.ParseUint]: the digits are read from the left;
    the first byte that is no digit is a syntax error, the first step that
    leaves [uint64] a range error. *)
Fixpoint parse_digits (s : string) (n : Z) : Z + string :=
  match s with
  | EmptyString => inl n
  | String c rest =>
      let b := Z.of_N (N_of_ascii c) in
      if (48 <=? b) && (b <=? 57) then
        if n >=? MaxUint64 / 10 + 1 then inr ErrRange
        else
          let n1 := n * 10 + (b - 48) in
          if n1 >? MaxUint64 then inr ErrRange
          else parse_digits rest n1
      else inr ErrSyntax
  end.

Definition ParseUint (s : string) : Z + string :=
  match s with
  | EmptyString => inr ErrSyntax
  | _ => parse_digits s 0
  end.

(** [strconv.ParseInt(s, 10, 64)]: the value, or the error inside the
    [NumError]. *)
Definition ParseInt (s : string) : Z + string :=
  match s with
  | EmptyString => inr ErrSyntax
  | String c rest =>
      let neg := Ascii.eqb c "-" in
      let digits := if Ascii.eqb c "+" || neg then rest else s in
      match ParseUint digits with
      | inr err =>
          (* a range error of [ParseUint] comes with the largest [uint64],
             which the tests below turn into a range error again *)
          inr err
      | inl un =>
          let cutoff := 2 ^ 63 in
          if negb neg && (un >=? cutoff) then inr ErrRange
          else if neg && (un >? cutoff) then inr ErrRange
          else inl (if neg then - un else un)
      end
  end.

(** ** Statements in batches *)

(** A [Statement], seen through [Action() == Insert] and [Attribute]. *)
Record Statement : Type := {
  isInsert : bool;
  Attribute : string -> string
}.

(** [errSliceOrArrayRequired]. *)
Definition errSliceOrArrayRequired : string :=
  "juice: slice or array required".

(** How a call of [ExecContext] ends: it returns a result and an error, or
    it panics inside [reflect.Value.Slice]. *)
Inductive ending (A : Type) : Type :=
| Returns (a : A)
| SlicePanics.

Arguments Returns {A} a.
Arguments SlicePanics {A}.

Section Batch.

(** The parameter and the result of a statement. *)
Variables Param Result : Type.

(** [reflectlite.ValueOf(param).IndirectType().Kind()], the length
    [value.Unwrap().Len()] and the part
    [unwrapValue.Slice(start, end).Interface()] of a parameter.
    [reflect.Value.Slice] panics when the bounds are out of range, and on
    an array that is not addressable, as is an array passed by value;
    [Slice] is [None] there. *)
Variable IndirectKind : Param -> reflect.Kind.
Variable Len : Param -> Z.
Variable Slice : Param -> Z -> Z -> option Param.

(** [execContext], which builds the statement and has the driver execute
    it: what its [n]-th call returns for a parameter. *)
Variable execContext : nat -> Param -> option Result * option Err.

(** The loop of [ExecContext], [remaining] iterations from [i] on: how it
    ends, and the parameters [execContext] was called with. *)
Fixpoint batch_loop (remaining : nat) (i batchSize length : Z)
  (param : Param) (n : nat) (result : option Result)
  : ending (option Result * option Err) * list Param :=
  match remaining with
  | O => (Returns (result, None), [])
  | S remaining =>
      let start := int64_mul i batchSize in
      let end_ := int64_mul (int64_add i 1) batchSize in
      let end_ := if end_ >? length then length else end_ in
      match Slice param start end_ with
      | None => (SlicePanics, [])
      | Some batchParam =>
          let (result, err) := execContext n batchParam in
          match err with
          | Some e => (Returns (None, Some e), [batchParam])
          | None =>
              let (ret, calls) :=
                batch_loop remaining (int64_add i 1) batchSize length param
                  (S n) result in
              (ret, batchParam :: calls)
          end
      end
  end.

(** [BatchSQLRowsStatementHandler.ExecContext]. *)
Definition ExecContext (statement : Statement) (param : Param)
  : ending (option Result * option Err) * list Param :=
  if negb (isInsert statement) then (Returns (execContext 0 param), [param])
  else
    let batchSizeValue := Attribute statement "batchSize" in
    if (String.length batchSizeValue =? 0)%nat then
      (Returns (execContext 0 param), [param])
    else
      match ParseInt batchSizeValue with
      | inr err =>
          (Returns
             (None,
              Join [Some (NumError "ParseInt" batchSizeValue err);
                    Some (Fresh ("failed to parse batch size: "
                                 ++ batchSizeValue))]),
           [])
      | inl batchSize =>
          if batchSize <=? 0 then
            (Returns (None, Some (Fresh "batch size must be greater than 0")),
             [])
          else
            match IndirectKind param with
            | reflect.Slice | reflect.Array =>
                let length := Len param in
                if length =? 0 then
                  (Returns (None, Some (Fresh "invalid param length")), [])
                else
                  let times :=
                    wrap_int64
                      (int64_sub (int64_add length batchSize) 1
                         ÷ batchSize) in
                  batch_loop (Z.to_nat times) 0 batchSize length param 0%nat
                    None
            | _ =>
                (Returns (None, Some (Sentinel errSliceOrArrayRequired)), [])
            end
      end.

End Batch.

End juice.

(** * The package internal of the command *)

Module internal.

(** The [io.Writer] of a [Generator]: the standard output, a file that was
    created, or the nil [*os.File] a failed [os.Create] leaves in the
    interface. *)
Inductive Writer : Type :=
| Stdout
| File (path : string)
| NilFile.

(** The fields of [Generator] that [Output] reads and writes; [writer] is
    none for the nil interface. *)
Record Generator : Type := {
  output : string;
  writer : option Writer
}.

Section Output.

(** [os.Create]: the error, if the file cannot be created. *)
Variable os_Create : string -> option error.

(** [Generator.Output]: what is returned, and the generator after the
    call. *)
Definition Output (g : Generator)
  : (option Writer * option error) * Generator :=
  match writer g with
  | Some w => ((Some w, None), g)
  | None =>
      if (0 <? String.length (output g))%nat then
        let out := if negb (juice.HasSuffix (output g) ".go")
                   then output g ++ ".go" else output g in
        match os_Create out with
        | Some err =>
            ((None, Some err), {| output := out; writer := Some NilFile |})
        | None =>
            ((Some (File out), None),
             {| output := out; writer := Some (File out) |})
        end
      else
        ((Some Stdout, None),
         {| output := output g; writer := Some Stdout |})
  end.

End Output.

End internal.

(** The bytes [replacer] rewrites. *)
Definition rewritten (c : ascii) : Prop :=
  In c (map fst juice.replacer).

(** Every name in the cache is the name of its address. *)
Definition cache_sound (FuncForPC_Name : Z -> string)
  (cache : juice.gomap Z string) : Prop :=
  forall addr name,
    juice.map_get Z.eqb cache addr = Some name ->
    name = juice.runtimeFuncName FuncForPC_Name addr.


(** The bounds of the batches of [length] elements by [batchSize]: the
    number of batches, and the batch of an index. *)
Definition batch_count (batchSize length : Z) : Z :=
  (length + batchSize - 1) / batchSize.

Definition batch_start (batchSize : Z) (j : Z) : Z := j * batchSize.

Definition batch_end (batchSize length : Z) (j : Z) : Z :=
  Z.min ((j + 1) * batchSize) length.

(** The integers [i], [i+1], ... , [count] of them. *)
Definition indices (i : Z) (count : nat) : list Z :=
  map (fun k => i + Z.of_nat k) (seq 0 count).

(** A parameter that is a slice, as a list: its length and its parts.
    The capacity of the slice is its length, and [s[start:end]] panics
    unless [0 <= start <= end <= cap(s)]. *)
Definition list_Len {A : Type} (l : list A) : Z := Z.of_nat (length l).

Definition list_part {A : Type} (l : list A) (start end_ : Z) : list A :=
  firstn (Z.to_nat (end_ - start)) (skipn (Z.to_nat start) l).

Definition list_Slice {A : Type} (l : list A) (start end_ : Z)
  : option (list A) :=
  if (0 <=? start) && (start <=? end_) && (end_ <=? list_Len l)
  then Some (list_part l start end_)
  else None.

(** A parameter that is an array passed by value, as the list of its
    elements: the array is not addressable and [reflect.Value.Slice] panics
    on it, whatever the bounds. *)
Definition array_by_value_Slice {A : Type} (l : list A) (start end_ : Z)
  : option (list A) := None.

(** The parameter can be cut within its bounds, and [part] is what the cut
    gives: so it is for a slice, and for an array that is addressable. *)
Definition sliceable {Param : Type} (Len : Param -> Z)
  (Slice : Param -> Z -> Z -> option Param) (param : Param)
  (part : Z -> Z -> Param) : Prop :=
  forall start end_,
    0 <= start <= end_ -> end_ <= Len param ->
    Slice param start end_ = Some (part start end_).

(** What the deferred rollback leaves of the error, when the rollback is
    clean: it returns nil or [sql.ErrTxDone]. *)
Definition clean_rollback (a : juice.Answers) : Prop :=
  juice.rollback a = None \/
  exists r, juice.rollback a = Some r /\ juice.Is r juice.ErrTxDone = true.

(** ** Inputs of the examples *)

(** The name the runtime gives a method value of a pointer receiver. *)
Definition method_value_name : string :=
  "example.com/pkg.(" ++ "*T).Method-fm".

(** An insert with the batch size [size]. *)
Definition insert_in_batches (size : string) : juice.Statement :=
  {| juice.isInsert := true;
     juice.Attribute :=
       fun key => if String.eqb key "batchSize" then size else "" |}.

(** An [execContext] that succeeds with the number of rows it was given,
    and one that fails at its second call. *)
Definition count_rows (n : nat) (p : list Z) : option Z * option juice.Err :=
  (Some (list_Len p), None).

Definition fail_second (n : nat) (p : list Z) : option Z * option juice.Err :=
  match n with
  | 1%nat => (None, Some (juice.Fresh "duplicate key"))
  | _ => (Some (list_Len p), None)
  end.

(** An environment with nothing set. *)
Definition fresh_environment : juice.Environment :=
  {| juice.DataSource := ""; juice.Driver := "";
     juice.MaxIdleConnNum := 0; juice.MaxOpenConnNum := 0;
     juice.MaxConnLifetime := 0; juice.MaxIdleConnLifetime := 0;
     juice.attrs := None |}.

(** An environment with the two lifetimes set. *)
Definition two_lifetimes : juice.Environment :=
  {| juice.DataSource := "dsn"; juice.Driver := "sqlite3";
     juice.MaxIdleConnNum := 2; juice.MaxOpenConnNum := 0;
     juice.MaxConnLifetime := 60; juice.MaxIdleConnLifetime := 5;
     juice.attrs := None |}.

(** A handler that asks for the commit, a commit that succeeds and a
    rollback that finds the transaction done. *)
Definition commit_on_specific : juice.Answers :=
  {| juice.begin := None;
     juice.handler :=
       Some (juice.Wrap "keep it" (juice.Sentinel juice.ErrCommitOnSpecific));
     juice.commit := None;
     juice.rollback := Some (juice.Sentinel juice.ErrTxDone) |}.

(** A handler that fails, and a rollback that succeeds. *)
Definition handler_fails : juice.Answers :=
  {| juice.begin := None;
     juice.handler := Some (juice.Fresh "no rows");
     juice.commit := None;
     juice.rollback := None |}.

Definition an_engine : juice.Manager :=
  {| juice.isEngine := true; juice.isTxManager := false |}.

(** * Properties *)

(** ** The program monad *)

Lemma run_fetch (A : Type) (k : result -> prog A) (nxt : continuation)
  (calls : nat) :
  run (ret <- next ;; k ret) nxt calls =
  match nxt calls with
  | Returned r => run (k r) nxt (S calls)
  | Panicked p => (Panicked p, S calls)
  | Diverged => (Diverged, S calls)
  end.
Proof. reflexivity. Qed.

Lemma run_fetched (A : Type) (k : result -> prog A) (nxt : continuation)
  (calls : nat) (r : result) :
  nxt calls = Returned r ->
  run (ret <- next ;; k ret) nxt calls = run (k r) nxt (S calls).
Proof. intros H. rewrite run_fetch, H. reflexivity. Qed.

(** [Unwrap] never stops at a pointer or an interface. *)
Lemma Unwrap_not_indirect (v : Value) :
  Kind (Unwrap v) <> reflect.Pointer /\ Kind (Unwrap v) <> reflect.Interface.
Proof.
  induction v as [ | b | k n | k n | k f | k c | s | e IH | e IH | k ];
    simpl; try assumption; try (split; discriminate);
    destruct k; split; discriminate.
Qed.

Lemma Unwrap_idempotent (v : Value) : Unwrap (Unwrap v) = Unwrap v.
Proof. induction v; simpl; auto. Qed.

(** A value of kind [Bool] is a boolean. *)
Lemma Kind_Bool_inv (v : Value) :
  Kind v = reflect.Bool -> exists b, v = VBool b.
Proof.
  destruct v as [ | b | k n | k n | k f | k c | s | e | e | k ];
    try destruct k; simpl; intros H; try discriminate H.
  exists b. reflexivity.
Qed.

Lemma Kind_String_inv (v : Value) :
  Kind v = reflect.String -> exists s, v = VString s.
Proof.
  destruct v as [ | b | k n | k n | k f | k c | s | e | e | k ];
    try destruct k; simpl; intros H; try discriminate H.
  exists s. reflexivity.
Qed.

(** ** Machine integers *)

Lemma wrap_int64_range (z : Z) : in_int64 (wrap_int64 z).
Proof.
  unfold in_int64, wrap_int64, MinInt64, MaxInt64, two64.
  pose proof (Z.mod_pos_bound (z + 2 ^ 63) (2 ^ 64) ltac:(lia)). lia.
Qed.

Lemma wrap_int64_small (z : Z) : in_int64 z -> wrap_int64 z = z.
Proof.
  unfold in_int64, wrap_int64, MinInt64, MaxInt64, two64. intros H.
  rewrite Z.mod_small by lia. lia.
Qed.

Lemma wrap_uint64_range (z : Z) : in_uint64 (wrap_uint64 z).
Proof.
  unfold in_uint64, wrap_uint64, MaxUint64, two64.
  pose proof (Z.mod_pos_bound z (2 ^ 64) ltac:(lia)). lia.
Qed.

Lemma wrap_uint64_small (z : Z) : in_uint64 z -> wrap_uint64 z = z.
Proof.
  unfold in_uint64, wrap_uint64, MaxUint64, two64. intros H.
  apply Z.mod_small. lia.
Qed.

(** The payload of a value [reflect] can produce fits 64 bits. *)
Lemma wf_value_int64 (k : IntKind) (n : Z) :
  wf_value (VInt k n) -> in_int64 n.
Proof.
  unfold in_int64, MinInt64, MaxInt64. destruct k; simpl; lia.
Qed.

Lemma wf_value_uint64 (k : UintKind) (n : Z) :
  wf_value (VUint k n) -> in_uint64 n.
Proof.
  unfold in_uint64, MaxUint64. destruct k; simpl; lia.
Qed.

Lemma uint64_of_int64_negative (x : Z) :
  in_int64 x -> x < 0 -> uint64_of_int64 x = x + 2 ^ 64.
Proof.
  unfold in_int64, uint64_of_int64, MinInt64, MaxInt64, two64. intros H Hneg.
  symmetry. apply Z.mod_unique with (q := -1); lia.
Qed.

Lemma uint64_of_int64_zero (x : Z) :
  in_int64 x -> uint64_of_int64 x = 0 -> x = 0.
Proof.
  intros H H0. destruct (Z.neg_nonneg_cases x) as [Hneg | Hpos].
  - rewrite uint64_of_int64_negative in H0 by assumption.
    unfold in_int64, MinInt64, MaxInt64 in H. lia.
  - unfold in_int64, uint64_of_int64, MinInt64, MaxInt64, two64 in *.
    rewrite Z.mod_small in H0 by lia. exact H0.
Qed.

(** ** Running an executor on resolved operands *)

(** Splits a resolved operand into its kinds. *)
Ltac split_operand v :=
  destruct v as [ | ? | [ | | | | ] ? | [ | | | | | ] ? | [ | ] ?
                | [ | ] ? | ? | ? | ? | [ | | | | | | ] ].

(** Replaces the call of [next] by the reply [H] gives for it. *)
Ltac fetch H :=
  rewrite ?(run_fetched _ _ _ _ _ H); cbv beta iota.

(** ** Division and remainder by zero *)

(** C1, as the claim states it, fails: dividing the signed integer [1] by
    the fetched signed integer [0], the executor for [/] does not return an
    error, and neither does the executor for [%]. *)
Lemma zero_divisor_no_error :
  ~ returns_error (QUOExprExecutor_Exec (VInt KInt 1))
      (returning (VInt KInt 0)) /\
  ~ returns_error (REMExprExecutor_Exec (VInt KInt 1))
      (returning (VInt KInt 0)).
Proof.
  split; intros [v [e H]]; vm_compute in H; discriminate H.
Qed.

(** C1 (amended): for operands of integer kind, signed or unsigned, and a
    fetched divisor that is zero, the executors for [/] and [%] call the
    continuation once and then panic with Go's integer divide error; they
    return neither a value nor an error. *)
Theorem zero_divisor_panics (p f : Value) (x : Z) (nxt : continuation) :
  integer_operand (Unwrap p) = Some x ->
  integer_operand (Unwrap f) = Some 0 ->
  nxt 0%nat = Returned (f, None) ->
  run (QUOExprExecutor_Exec p) nxt 0 = (Panicked DivideError, 1%nat) /\
  run (REMExprExecutor_Exec p) nxt 0 = (Panicked DivideError, 1%nat).
Proof.
  intros Hp Hf Hn. unfold QUOExprExecutor_Exec, REMExprExecutor_Exec.
  fetch Hn.
  split_operand (Unwrap p); try discriminate Hp;
    split_operand (Unwrap f); try discriminate Hf;
    injection Hf as ->; split; reflexivity.
Qed.

Lemma zero_divisor_panics_witness :
  run (QUOExprExecutor_Exec (VPointer (VUint KUint8 200)))
      (returning (VInt KInt32 0)) 0 = (Panicked DivideError, 1%nat) /\
  run (REMExprExecutor_Exec (VPointer (VUint KUint8 200)))
      (returning (VInt KInt32 0)) 0 = (Panicked DivideError, 1%nat).
Proof.
  apply (zero_divisor_panics (VPointer (VUint KUint8 200)) (VInt KInt32 0)
           200 (returning (VInt KInt32 0)));
    reflexivity.
Defined.

(** ** The logical executors *)

(** C2: with a pending operand that resolves to [false], the two
    executors for the logical and return [false]; with one that resolves to
    [true], the two executors for the logical or return [true].  Whatever
    the continuation would do, be it an error, a panic or no return at all,
    it is not invoked: the count of its invocations is left as it was. *)
Theorem short_circuit (v : Value) (nxt : continuation) (calls : nat) :
  (Unwrap v = VBool false ->
   run (LANDExprExecutor_Exec v) nxt calls
     = (Returned (VBool false, None), calls) /\
   run (ANDExprExecutor_Exec v) nxt calls
     = (Returned (VBool false, None), calls)) /\
  (Unwrap v = VBool true ->
   run (LORExprExecutor_Exec v) nxt calls
     = (Returned (VBool true, None), calls) /\
   run (ORExprExecutor_Exec v) nxt calls
     = (Returned (VBool true, None), calls)).
Proof.
  unfold LANDExprExecutor_Exec, ANDExprExecutor_Exec, LORExprExecutor_Exec,
    ORExprExecutor_Exec.
  split; intros ->; split; reflexivity.
Qed.

Lemma short_circuit_witness :
  run (LANDExprExecutor_Exec (VPointer (VBool false))) (fun _ => Diverged) 0
    = (Returned (VBool false, None), 0%nat) /\
  run (ORExprExecutor_Exec (VBool true))
      (fun _ => Panicked (OtherPanic "invoked")) 0
    = (Returned (VBool true, None), 0%nat).
Proof.
  split.
  - apply (proj1 (short_circuit (VPointer (VBool false))
                    (fun _ => Diverged) 0)).
    reflexivity.
  - apply (proj2 (short_circuit (VBool true)
                    (fun _ => Panicked (OtherPanic "invoked")) 0)).
    reflexivity.
Defined.

(** C3, at the input where the code departs from it: with the pending
    operand [true] and a continuation that returns the integer [5], the
    executor for [&&] returns the integer as its result, with a nil error,
    where the executor for the token [AND] fails. *)
Theorem LAND_returns_fetched_integer :
  run (LANDExprExecutor_Exec (VBool true)) (returning (VInt KInt 5)) 0
    = (Returned (VInt KInt 5, None), 1%nat) /\
  run (ANDExprExecutor_Exec (VBool true)) (returning (VInt KInt 5)) 0
    = (Returned (invalidValue,
                 Some (errorString "unsupported and expression: int")),
       1%nat).
Proof. split; reflexivity. Qed.

(** The second test of [LANDExprExecutor.Exec] never fails: whatever the
    continuation returns with a nil error is returned, unwrapped. *)
Lemma LAND_returns_fetched (v f : Value) (nxt : continuation) :
  Unwrap v = VBool true -> nxt 0%nat = Returned (f, None) ->
  run (LANDExprExecutor_Exec v) nxt 0 = (Returned (Unwrap f, None), 1%nat).
Proof.
  intros Hv Hn. unfold LANDExprExecutor_Exec. rewrite Hv. simpl.
  rewrite Hn. reflexivity.
Qed.

(** What C3 says holds of a pending operand that is not a boolean, for
    the four executors: a type error, and no invocation. *)
Lemma pending_not_boolean (v : Value) (nxt : continuation) (calls : nat) :
  Kind (Unwrap v) <> reflect.Bool ->
  exists e,
    run (LANDExprExecutor_Exec v) nxt calls
      = (Returned (invalidValue, Some e), calls) /\
    run (LORExprExecutor_Exec v) nxt calls
      = (Returned (invalidValue, Some e), calls) /\
    exists e1 e2,
      run (ANDExprExecutor_Exec v) nxt calls
        = (Returned (invalidValue, Some e1), calls) /\
      run (ORExprExecutor_Exec v) nxt calls
        = (Returned (invalidValue, Some e2), calls).
Proof.
  intros H.
  unfold LANDExprExecutor_Exec, ANDExprExecutor_Exec, LORExprExecutor_Exec,
    ORExprExecutor_Exec.
  split_operand (Unwrap v); try (exfalso; apply H; reflexivity);
    eexists; repeat split; eexists; eexists; split; reflexivity.
Qed.

(** What C3 says of the fetched operand holds of three executors out of
    the four: a fetched value that is not a boolean is a type error. *)
Lemma fetched_not_boolean (v f : Value) (nxt : continuation) :
  nxt 0%nat = Returned (f, None) ->
  Kind (Unwrap f) <> reflect.Bool ->
  (Unwrap v = VBool false ->
   returns_error (LORExprExecutor_Exec v) nxt /\
   returns_error (ORExprExecutor_Exec v) nxt) /\
  (Unwrap v = VBool true ->
   returns_error (ANDExprExecutor_Exec v) nxt).
Proof.
  intros Hn H.
  unfold returns_error, behaviour, LORExprExecutor_Exec, ANDExprExecutor_Exec,
    ORExprExecutor_Exec.
  split; intros ->; simpl; rewrite !Hn; simpl;
    split_operand (Unwrap f); try (exfalso; apply H; reflexivity);
    repeat split; eexists; eexists; reflexivity.
Qed.

(** ** The two families of logical executors *)

(** C4, as the claim states it, fails: on the pending integer [1] the
    executors for [&&] and [||] return the error "unsupported expression:
    int", the executors for the tokens [AND] and [OR] the errors
    "unsupported and expression: int" and "unsupported or expression:
    int". *)
Lemma logical_families_differ :
  ~ (behaviour (LANDExprExecutor_Exec (VInt KInt 1)) (returning (VBool true))
       = behaviour (ANDExprExecutor_Exec (VInt KInt 1))
           (returning (VBool true)) /\
     behaviour (LORExprExecutor_Exec (VInt KInt 1)) (returning (VBool true))
       = behaviour (ORExprExecutor_Exec (VInt KInt 1))
           (returning (VBool true))).
Proof.
  intros [_ H]. vm_compute in H. discriminate H.
Qed.

(** Closes a case of the comparison of two outcomes: equal errors, or two
    type errors on the same kind. *)
Ltac same_outcome :=
  repeat split;
  first [ reflexivity
        | left; reflexivity
        | right; eexists; split; reflexivity ].

(** C4 (amended): for every pending operand and every continuation, the
    executors for [||] and for the token [OR] end the same way: the same
    value, the same number of invocations of the continuation, the same
    panic if the continuation panics, and the same error or none, except
    that the type errors of their own differ in wording ("unsupported
    expression: K" against "unsupported or expression: K").  So do the
    executors for [&&] and for the token [AND] ("unsupported and
    expression: K") in every case but one: the pending operand resolves to
    [true] and the continuation returns, with no error, a value that does
    not resolve to a boolean.  A pending operand that is [false] or not a
    boolean, a continuation that returns an error, panics or does not
    return, are all covered. *)
Theorem logical_families_agree (v : Value) (nxt : continuation) :
  agree "unsupported expression: " "unsupported or expression: "
    (run (LORExprExecutor_Exec v) nxt 0) (run (ORExprExecutor_Exec v) nxt 0) /\
  ((Unwrap v = VBool true ->
    forall f, nxt 0%nat = Returned (f, None) ->
              Kind (Unwrap f) = reflect.Bool) ->
   agree "unsupported expression: " "unsupported and expression: "
     (run (LANDExprExecutor_Exec v) nxt 0)
     (run (ANDExprExecutor_Exec v) nxt 0)).
Proof.
  unfold LANDExprExecutor_Exec, ANDExprExecutor_Exec, LORExprExecutor_Exec,
    ORExprExecutor_Exec, agree.
  split.
  - split_operand (Unwrap v); simpl; try same_outcome.
    match goal with b : bool |- _ => destruct b end; simpl;
      try same_outcome.
    destruct (nxt 0%nat) as [ [f [e | ]] | q | ] eqn:Hn; simpl;
      try same_outcome.
    split_operand (Unwrap f); simpl; same_outcome.
  - split_operand (Unwrap v); intros Hbool; simpl; try same_outcome.
    match goal with b : bool |- _ => destruct b end; simpl;
      try same_outcome.
    destruct (nxt 0%nat) as [ [f [e | ]] | q | ] eqn:Hn; simpl;
      try same_outcome.
    specialize (Hbool eq_refl f eq_refl).
    destruct (Kind_Bool_inv _ Hbool) as [b ->]. simpl. same_outcome.
Qed.

Lemma logical_families_agree_witness :
  agree "unsupported expression: " "unsupported and expression: "
    (run (LANDExprExecutor_Exec (VBool true))
       (returning (VPointer (VBool false))) 0)
    (run (ANDExprExecutor_Exec (VBool true))
       (returning (VPointer (VBool false))) 0).
Proof.
  apply (proj2 (logical_families_agree (VBool true)
                  (returning (VPointer (VBool false))))).
  intros _ f H. injection H as <-. reflexivity.
Defined.

(** ** Negation *)

(** C5, at the input where the code departs from it: the continuation
    returns the integer [5] and the executor for [!] panics inside
    [reflect.Value.Bool], where the claim has it return an error.  It does
    so for a pointer to a boolean as well, the fetched value being read as
    it comes. *)
Theorem NOT_panics_on_integer :
  run (NOTExprExecutor_Exec (VBool true)) (returning (VInt KInt 5)) 0
    = (Panicked (ValueError "reflect.Value.Bool" reflect.Int), 1%nat) /\
  run (NOTExprExecutor_Exec (VBool true)) (returning (VPointer (VBool true)))
      0
    = (Panicked (ValueError "reflect.Value.Bool" reflect.Pointer), 1%nat).
Proof. split; reflexivity. Qed.

(** The rest of C5 holds: the pending operand is ignored, the continuation
    is invoked once, a fetched boolean is negated and an error of the
    continuation is handed on. *)
Lemma NOT_negates (v w f : Value) (b : bool) (e : error)
  (nxt : continuation) :
  run (NOTExprExecutor_Exec v) nxt 0 = run (NOTExprExecutor_Exec w) nxt 0 /\
  invocations (NOTExprExecutor_Exec v) nxt = 1%nat /\
  (nxt 0%nat = Returned (VBool b, None) ->
   behaviour (NOTExprExecutor_Exec v) nxt = Returned (VBool (negb b), None)) /\
  (nxt 0%nat = Returned (f, Some e) ->
   behaviour (NOTExprExecutor_Exec v) nxt = Returned (invalidValue, Some e)).
Proof.
  unfold invocations, behaviour, NOTExprExecutor_Exec.
  rewrite !run_fetch. repeat split.
  - destruct (nxt 0%nat) as [ [g [e' | ]] | q | ]; try reflexivity.
    destruct g; reflexivity.
  - intros ->. reflexivity.
  - intros ->. reflexivity.
Qed.

(** ** Arithmetic on signed integers *)

Lemma int64_quot_range (x y : Z) :
  in_int64 x -> in_int64 y -> y <> 0 -> ~ (x = MinInt64 /\ y = -1) ->
  in_int64 (x ÷ y).
Proof.
  unfold in_int64, MinInt64, MaxInt64. intros Hx Hy Hy0 Hmin.
  pose proof (Z.quot_rem' x y). pose proof (Z.rem_bound_abs x y Hy0). nia.
Qed.

Lemma int64_rem_range (x y : Z) :
  in_int64 y -> y <> 0 -> in_int64 (Z.rem x y).
Proof.
  unfold in_int64, MinInt64, MaxInt64. intros Hy Hy0.
  pose proof (Z.rem_bound_abs x y Hy0). lia.
Qed.

(** C6, as the claim states it, fails: the sum of the largest [int64] and
    [1] is not what the executor for [+] returns, at any kind. *)
Lemma signed_sum_not_exact :
  ~ exists k,
      behaviour (ADDExprExecutor_Exec (VInt KInt64 MaxInt64))
        (returning (VInt KInt64 1))
      = Returned (VInt k (MaxInt64 + 1), None).
Proof.
  intros [k H]. vm_compute in H. discriminate H.
Qed.

(** C6 (amended): for signed operands with the pending value [x] and the
    fetched value [y], the executors for [+], [-] and [*] return the
    [int64] that [x+y], [x-y] and [x*y] wrap around to, which is the exact
    result whenever that fits 64 bits; for [y] other than zero the
    executor for [/] returns the quotient truncated toward zero, exact but
    for the least [int64] divided by [-1], which wraps around to itself, and
    the executor for [%] returns the remainder of that division. *)
Theorem signed_arithmetic (p f : Value) (k1 k2 : IntKind) (x y : Z)
  (nxt : continuation) :
  Unwrap p = VInt k1 x -> Unwrap f = VInt k2 y ->
  in_int64 x -> in_int64 y ->
  nxt 0%nat = Returned (f, None) ->
  (run (ADDExprExecutor_Exec p) nxt 0
     = (Returned (ValueOf_int64 (wrap_int64 (x + y)), None), 1%nat) /\
   run (SUBExprExecutor_Exec p) nxt 0
     = (Returned (ValueOf_int64 (wrap_int64 (x - y)), None), 1%nat) /\
   run (MULExprExecutor_Exec p) nxt 0
     = (Returned (ValueOf_int64 (wrap_int64 (x * y)), None), 1%nat)) /\
  (in_int64 (x + y) ->
   run (ADDExprExecutor_Exec p) nxt 0
     = (Returned (ValueOf_int64 (x + y), None), 1%nat)) /\
  (in_int64 (x - y) ->
   run (SUBExprExecutor_Exec p) nxt 0
     = (Returned (ValueOf_int64 (x - y), None), 1%nat)) /\
  (in_int64 (x * y) ->
   run (MULExprExecutor_Exec p) nxt 0
     = (Returned (ValueOf_int64 (x * y), None), 1%nat)) /\
  (y <> 0 ->
   run (QUOExprExecutor_Exec p) nxt 0
     = (Returned (ValueOf_int64 (wrap_int64 (x ÷ y)), None), 1%nat) /\
   run (REMExprExecutor_Exec p) nxt 0
     = (Returned (ValueOf_int64 (Z.rem x y), None), 1%nat)) /\
  (y <> 0 -> ~ (x = MinInt64 /\ y = -1) ->
   run (QUOExprExecutor_Exec p) nxt 0
     = (Returned (ValueOf_int64 (x ÷ y), None), 1%nat)).
Proof.
  intros Hp Hf Hx Hy Hn.
  assert (Hadd : run (ADDExprExecutor_Exec p) nxt 0
            = (Returned (ValueOf_int64 (wrap_int64 (x + y)), None), 1%nat)).
  { unfold ADDExprExecutor_Exec. fetch Hn. rewrite Hp, Hf.
    destruct k1, k2; reflexivity. }
  assert (Hsub : run (SUBExprExecutor_Exec p) nxt 0
            = (Returned (ValueOf_int64 (wrap_int64 (x - y)), None), 1%nat)).
  { unfold SUBExprExecutor_Exec. fetch Hn. rewrite Hp, Hf.
    destruct k1, k2; reflexivity. }
  assert (Hmul : run (MULExprExecutor_Exec p) nxt 0
            = (Returned (ValueOf_int64 (wrap_int64 (x * y)), None), 1%nat)).
  { unfold MULExprExecutor_Exec. fetch Hn. rewrite Hp, Hf.
    destruct k1, k2; reflexivity. }
  assert (Hquo : y <> 0 -> run (QUOExprExecutor_Exec p) nxt 0
            = (Returned (ValueOf_int64 (wrap_int64 (x ÷ y)), None), 1%nat)).
  { intros Hy0. apply Z.eqb_neq in Hy0.
    unfold QUOExprExecutor_Exec. fetch Hn. rewrite Hp, Hf.
    destruct k1, k2; simpl; unfold int64_quo; rewrite Hy0; reflexivity. }
  assert (Hrem : y <> 0 -> run (REMExprExecutor_Exec p) nxt 0
            = (Returned (ValueOf_int64 (wrap_int64 (Z.rem x y)), None),
               1%nat)).
  { intros Hy0. apply Z.eqb_neq in Hy0.
    unfold REMExprExecutor_Exec. fetch Hn. rewrite Hp, Hf.
    destruct k1, k2; simpl; unfold int64_rem; rewrite Hy0; reflexivity. }
  split; [ auto | ].
  split; [ intros H; rewrite Hadd, (wrap_int64_small _ H); reflexivity | ].
  split; [ intros H; rewrite Hsub, (wrap_int64_small _ H); reflexivity | ].
  split; [ intros H; rewrite Hmul, (wrap_int64_small _ H); reflexivity | ].
  split.
  - intros Hy0. split; [ auto | ]. rewrite (Hrem Hy0).
    rewrite (wrap_int64_small _ (int64_rem_range x y Hy Hy0)). reflexivity.
  - intros Hy0 Hmin. rewrite (Hquo Hy0).
    rewrite (wrap_int64_small _ (int64_quot_range x y Hx Hy Hy0 Hmin)).
    reflexivity.
Qed.

Lemma signed_arithmetic_witness :
  run (ADDExprExecutor_Exec (VInt KInt 7)) (returning (VInt KInt8 (-2))) 0
    = (Returned (ValueOf_int64 5, None), 1%nat) /\
  run (QUOExprExecutor_Exec (VInt KInt 7)) (returning (VInt KInt8 (-2))) 0
    = (Returned (ValueOf_int64 (-3), None), 1%nat) /\
  run (REMExprExecutor_Exec (VInt KInt 7)) (returning (VInt KInt8 (-2))) 0
    = (Returned (ValueOf_int64 1, None), 1%nat).
Proof.
  pose proof (signed_arithmetic (VInt KInt 7) (VInt KInt8 (-2)) KInt KInt8
                7 (-2) (returning (VInt KInt8 (-2))) eq_refl eq_refl
                ltac:(unfold in_int64, MinInt64, MaxInt64; lia)
                ltac:(unfold in_int64, MinInt64, MaxInt64; lia)
                eq_refl) as [_ [Hadd [_ [_ [Hrem Hquo]]]]].
  split; [ | split ].
  - apply Hadd. unfold in_int64, MinInt64, MaxInt64. lia.
  - apply Hquo; lia.
  - apply Hrem. lia.
Defined.

(** ** Arithmetic on a signed and an unsigned integer *)

(** What the executors compute once both operands are [uint64]. *)
Lemma unsigned_arithmetic (op : arith) (p f : Value) (a b : Z)
  (nxt : continuation) :
  nxt 0%nat = Returned (f, None) ->
  unsigned_operand (Unwrap p) = Some a ->
  unsigned_operand (Unwrap f) = Some b ->
  divisor_ok op b ->
  run (arith_Exec op p) nxt 0
    = (Returned (ValueOf_uint64 (wrap_uint64 (arith_Z op a b)), None), 1%nat).
Proof.
  intros Hn Hp Hf Hd.
  destruct op; simpl in Hd; try apply Z.eqb_neq in Hd; simpl arith_Exec;
    unfold ADDExprExecutor_Exec, SUBExprExecutor_Exec, MULExprExecutor_Exec,
      QUOExprExecutor_Exec, REMExprExecutor_Exec;
    fetch Hn;
    split_operand (Unwrap p); try discriminate Hp; injection Hp as ->;
    split_operand (Unwrap f); try discriminate Hf; injection Hf as ->;
    simpl; unfold uint64_quo, uint64_rem; rewrite ?Hd; reflexivity.
Qed.

(** With the signed operand pending, the call ends as it does on the
    operand converted to [uint64]. *)
Lemma signed_pending_converted (op : arith) (p f : Value) (k : IntKind)
  (x y : Z) (nxt : continuation) :
  nxt 0%nat = Returned (f, None) ->
  Unwrap p = VInt k x -> unsigned_operand (Unwrap f) = Some y ->
  run (arith_Exec op p) nxt 0
    = run (arith_Exec op (ValueOf_uint64 (uint64_of_int64 x))) nxt 0.
Proof.
  intros Hn Hp Hf.
  destruct op; simpl arith_Exec;
    unfold ADDExprExecutor_Exec, SUBExprExecutor_Exec,
      MULExprExecutor_Exec, QUOExprExecutor_Exec, REMExprExecutor_Exec;
    fetch Hn; rewrite Hp;
    split_operand (Unwrap f); try discriminate Hf;
    destruct k; reflexivity.
Qed.

(** With the signed operand fetched, the call ends as it does when the
    continuation returns the operand converted to [uint64]. *)
Lemma signed_fetched_converted (op : arith) (p f : Value) (k : IntKind)
  (x y : Z) (nxt : continuation) :
  nxt 0%nat = Returned (f, None) ->
  unsigned_operand (Unwrap p) = Some y -> Unwrap f = VInt k x ->
  run (arith_Exec op p) nxt 0
    = run (arith_Exec op p)
        (returning (ValueOf_uint64 (uint64_of_int64 x))) 0.
Proof.
  intros Hn Hp Hf.
  destruct op; simpl arith_Exec;
    unfold ADDExprExecutor_Exec, SUBExprExecutor_Exec,
      MULExprExecutor_Exec, QUOExprExecutor_Exec, REMExprExecutor_Exec;
    fetch Hn; rewrite !run_fetch; unfold returning; cbv beta iota;
    rewrite Hf;
    split_operand (Unwrap p); try discriminate Hp;
    destruct k; simpl; unfold uint64_quo, uint64_rem;
    try destruct (uint64_of_int64 x =? 0); reflexivity.
Qed.

(** The result of a mixed operation, the signed operand pending. *)
Lemma signed_pending_result (op : arith) (p f : Value) (k : IntKind)
  (x y : Z) (nxt : continuation) :
  nxt 0%nat = Returned (f, None) ->
  Unwrap p = VInt k x -> unsigned_operand (Unwrap f) = Some y ->
  divisor_ok op y ->
  run (arith_Exec op p) nxt 0
    = (Returned (ValueOf_uint64
                   (wrap_uint64 (arith_Z op (uint64_of_int64 x) y)), None),
       1%nat).
Proof.
  intros Hn Hp Hf Hd.
  rewrite (signed_pending_converted op p f k x y nxt Hn Hp Hf).
  apply unsigned_arithmetic with (f := f); auto.
Qed.

(** The result of a mixed operation, the signed operand fetched. *)
Lemma signed_fetched_result (op : arith) (p f : Value) (k : IntKind)
  (x y : Z) (nxt : continuation) :
  nxt 0%nat = Returned (f, None) ->
  unsigned_operand (Unwrap p) = Some y -> Unwrap f = VInt k x ->
  divisor_ok op (uint64_of_int64 x) ->
  run (arith_Exec op p) nxt 0
    = (Returned (ValueOf_uint64
                   (wrap_uint64 (arith_Z op y (uint64_of_int64 x))), None),
       1%nat).
Proof.
  intros Hn Hp Hf Hd.
  rewrite (signed_fetched_converted op p f k x y nxt Hn Hp Hf).
  apply unsigned_arithmetic with (f := ValueOf_uint64 (uint64_of_int64 x));
    auto.
Qed.

(** How the executors end once both operands are [uint64], the zero
    divisor included. *)
Lemma unsigned_outcome (op : arith) (p f : Value) (a b : Z)
  (nxt : continuation) :
  nxt 0%nat = Returned (f, None) ->
  unsigned_operand (Unwrap p) = Some a ->
  unsigned_operand (Unwrap f) = Some b ->
  run (arith_Exec op p) nxt 0 = (uint64_outcome op a b, 1%nat).
Proof.
  intros Hn Hp Hf.
  destruct op; simpl arith_Exec;
    unfold ADDExprExecutor_Exec, SUBExprExecutor_Exec, MULExprExecutor_Exec,
      QUOExprExecutor_Exec, REMExprExecutor_Exec;
    fetch Hn;
    split_operand (Unwrap p); try discriminate Hp; injection Hp as ->;
    split_operand (Unwrap f); try discriminate Hf; injection Hf as ->;
    simpl; unfold uint64_quo, uint64_rem, uint64_outcome;
    try destruct (b =? 0); reflexivity.
Qed.

(** C7, as the claim states it, fails: the signed [6] divided by the
    fetched unsigned [0] has no result, of unsigned kind or of any other,
    and neither has the remainder of the unsigned [6] by the fetched signed
    [0]: the executors return nothing. *)
Lemma mixed_zero_divisor_no_result :
  ~ (exists w e,
       behaviour (QUOExprExecutor_Exec (VInt KInt 6))
         (returning (VUint KUint 0)) = Returned (w, e)) /\
  ~ (exists w e,
       behaviour (REMExprExecutor_Exec (VUint KUint 6))
         (returning (VInt KInt 0)) = Returned (w, e)).
Proof.
  split; intros [w [e H]]; vm_compute in H; discriminate H.
Qed.

(** C7 (amended): when one operand is of a signed kind and the other of an
    unsigned kind, the signed one, [x], is converted to [uint64] before the
    operation is applied, whichever of the five executors is called and
    whichever side the signed operand is on: the executor invokes the
    continuation once and returns, with a nil error, the value of kind
    [Uint64] that holds the result of the operation on [uint64(x)] and the
    unsigned operand, in pending-then-fetched order, modulo [2 ^ 64].  The
    one exception is a [/] or a [%] whose fetched operand, converted, is
    zero: it panics with Go's integer divide error and has no result. *)
Theorem mixed_operand_widened (op : arith) (p f : Value) (k : IntKind)
  (x y : Z) (nxt : continuation) :
  nxt 0%nat = Returned (f, None) ->
  (Unwrap p = VInt k x -> unsigned_operand (Unwrap f) = Some y ->
   run (arith_Exec op p) nxt 0
     = (uint64_outcome op (uint64_of_int64 x) y, 1%nat)) /\
  (unsigned_operand (Unwrap p) = Some y -> Unwrap f = VInt k x ->
   run (arith_Exec op p) nxt 0
     = (uint64_outcome op y (uint64_of_int64 x), 1%nat)).
Proof.
  intros Hn. split; intros Hp Hf.
  - rewrite (signed_pending_converted op p f k x y nxt Hn Hp Hf).
    apply unsigned_outcome with (f := f); auto.
  - rewrite (signed_fetched_converted op p f k x y nxt Hn Hp Hf).
    apply unsigned_outcome with (f := ValueOf_uint64 (uint64_of_int64 x));
      auto.
Qed.

Lemma mixed_operand_widened_witness :
  run (arith_Exec QUO (VInt KInt16 (-6))) (returning (VUint KUint8 3)) 0
    = (Returned (VUint KUint64 6148914691236517203, None), 1%nat) /\
  run (arith_Exec SUB (VUint KUint8 3)) (returning (VInt KInt16 (-6))) 0
    = (Returned (VUint KUint64 9, None), 1%nat) /\
  run (arith_Exec REM (VInt KInt16 (-6))) (returning (VUint KUint8 0)) 0
    = (Panicked DivideError, 1%nat).
Proof.
  split; [ | split ].
  - exact (proj1 (mixed_operand_widened QUO (VInt KInt16 (-6))
                    (VUint KUint8 3) KInt16 (-6) 3
                    (returning (VUint KUint8 3)) eq_refl)
             eq_refl eq_refl).
  - exact (proj2 (mixed_operand_widened SUB (VUint KUint8 3)
                    (VInt KInt16 (-6)) KInt16 (-6) 3
                    (returning (VInt KInt16 (-6))) eq_refl)
             eq_refl eq_refl).
  - exact (proj1 (mixed_operand_widened REM (VInt KInt16 (-6))
                    (VUint KUint8 0) KInt16 (-6) 0
                    (returning (VUint KUint8 0)) eq_refl)
             eq_refl eq_refl).
Defined.

(** C10: in a mixed operation the signed operand [x] is read as the
    [uint64] of the same 64 bits, [x + 2^64] when [x] is negative, and the
    result is computed modulo [2^64].  A negative operand is no failure:
    with the signed operand fetched every executor returns, with the signed
    operand pending every executor returns unless it divides by an unsigned
    zero.  So the pending [-1] plus the fetched unsigned [1] is [0], and
    the pending [1] minus the fetched unsigned [2] is [2^64 - 1], no
    error. *)
Theorem negative_operand_wraps (op : arith) (p f : Value) (k : IntKind)
  (x y : Z) (nxt : continuation) :
  nxt 0%nat = Returned (f, None) ->
  in_int64 x -> x < 0 ->
  (Unwrap p = VInt k x -> unsigned_operand (Unwrap f) = Some y ->
   divisor_ok op y ->
   run (arith_Exec op p) nxt 0
     = (Returned (ValueOf_uint64 (arith_Z op (x + 2 ^ 64) y mod 2 ^ 64),
                  None), 1%nat)) /\
  (unsigned_operand (Unwrap p) = Some y -> Unwrap f = VInt k x ->
   run (arith_Exec op p) nxt 0
     = (Returned (ValueOf_uint64 (arith_Z op y (x + 2 ^ 64) mod 2 ^ 64),
                  None), 1%nat)) /\
  run (ADDExprExecutor_Exec (VInt KInt (-1))) (returning (VUint KUint 1)) 0
    = (Returned (ValueOf_uint64 0, None), 1%nat) /\
  run (SUBExprExecutor_Exec (VInt KInt 1)) (returning (VUint KUint 2)) 0
    = (Returned (ValueOf_uint64 (2 ^ 64 - 1), None), 1%nat).
Proof.
  intros Hn Hx Hneg.
  pose proof (uint64_of_int64_negative x Hx Hneg) as Hconv.
  split; [ | split; [ | split; reflexivity ] ].
  - intros Hp Hf Hd.
    rewrite (signed_pending_result op p f k x y nxt Hn Hp Hf Hd), Hconv.
    reflexivity.
  - intros Hp Hf.
    rewrite (signed_fetched_result op p f k x y nxt Hn Hp Hf), Hconv.
    + reflexivity.
    + rewrite Hconv. unfold in_int64, MinInt64 in Hx.
      destruct op; simpl; auto; lia.
Qed.

Lemma negative_operand_wraps_witness :
  run (arith_Exec REM (VUint KUint32 7)) (returning (VInt KInt8 (-1))) 0
    = (Returned (ValueOf_uint64 7, None), 1%nat).
Proof.
  apply (proj1 (proj2 (negative_operand_wraps REM (VUint KUint32 7)
                         (VInt KInt8 (-1)) KInt8 (-1) 7
                         (returning (VInt KInt8 (-1))) eq_refl
                         ltac:(unfold in_int64, MinInt64, MaxInt64; lia)
                         ltac:(lia)))
           eq_refl eq_refl).
Defined.

(** ** Text *)

(** C8: on two operands of kind [String] the executor for [+] returns the
    text of the pending one followed by the text of the fetched one, so
    "a" and "b" give "ab"; the executors for [-], [*], [/] and [%] fail on
    a text operand, pending or fetched, with the error that names the two
    kinds. *)
Theorem text_operands (p f : Value) (nxt : continuation) :
  nxt 0%nat = Returned (f, None) ->
  (forall s t, Unwrap p = VString s -> Unwrap f = VString t ->
   run (ADDExprExecutor_Exec p) nxt 0
     = (Returned (VString (s ++ t), None), 1%nat)) /\
  (Kind (Unwrap p) = reflect.String \/ Kind (Unwrap f) = reflect.String ->
   forall op, op <> ADD ->
   run (arith_Exec op p) nxt 0
     = (Returned (invalidValue,
                  Some (Errorf2 "unsupported expression: "
                          (Kind (Unwrap p)) (Kind (Unwrap f)))),
        1%nat)) /\
  run (ADDExprExecutor_Exec (VString "a")) (returning (VString "b")) 0
    = (Returned (VString "ab", None), 1%nat).
Proof.
  intros Hn. split; [ | split; [ | reflexivity ] ].
  - intros s t Hp Hf. unfold ADDExprExecutor_Exec. fetch Hn.
    rewrite Hp, Hf. reflexivity.
  - intros Htext op Hop.
    destruct op; try (exfalso; apply Hop; reflexivity); simpl arith_Exec;
      unfold SUBExprExecutor_Exec, MULExprExecutor_Exec,
        QUOExprExecutor_Exec, REMExprExecutor_Exec;
      fetch Hn;
      (destruct Htext as [Hk | Hk];
       destruct (Kind_String_inv _ Hk) as [s Hs]; rewrite Hs;
       [ split_operand (Unwrap f) | split_operand (Unwrap p) ];
       reflexivity).
Qed.

Lemma text_operands_witness :
  run (arith_Exec MUL (VInt KInt 2)) (returning (VPointer (VString "ab"))) 0
    = (Returned (invalidValue,
                 Some (errorString "unsupported expression: int, string")),
       1%nat).
Proof.
  apply (proj1 (proj2 (text_operands (VInt KInt 2) (VPointer (VString "ab"))
                         (returning (VPointer (VString "ab"))) eq_refl))).
  - right. reflexivity.
  - discriminate.
Defined.

(** ** The registry *)

(** C9: [FromToken] is a function, so a token has one answer; on each of
    the nineteen tokens of the switch the answer is an executor and a nil
    error, a different executor for each token; on every other token, and
    there the token ranges over all integers, the answer is no executor and
    [ErrUnsupportedBinaryExpr]. *)
Theorem FromToken_total (t : token.Token) :
  (In t operator_tokens ->
   exists x, FromToken t = (Some x, None)) /\
  (~ In t operator_tokens ->
   FromToken t = (None, Some ErrUnsupportedBinaryExpr)) /\
  (forall t' x, FromToken t = (Some x, None) ->
                FromToken t' = (Some x, None) -> t = t') /\
  NoDup operator_tokens /\
  length operator_tokens = 19%nat.
Proof.
  split; [ | split; [ | split; [ | split ] ] ].
  - simpl. intros H.
    repeat (destruct H as [<- | H]; [ eexists; reflexivity | ]).
    destruct H.
  - unfold operator_tokens, FromToken. intros H.
    repeat match goal with
           | |- context [ t =? ?c ] =>
               let E := fresh "E" in
               destruct (Z.eqb_spec t c) as [E | E];
               [ exfalso; apply H; rewrite E; simpl; tauto | ]
           end.
    reflexivity.
  - unfold FromToken. intros t' x.
    repeat match goal with
           | |- context [ t =? ?c ] =>
               let E := fresh "E" in
               destruct (Z.eqb_spec t c) as [E | E];
               [ rewrite E; intros H; injection H as <-;
                 repeat match goal with
                        | |- context [ t' =? ?c' ] =>
                            let E' := fresh "E" in
                            destruct (Z.eqb_spec t' c') as [E' | E'];
                            [ rewrite E'; intros H'; try discriminate H';
                              reflexivity | ]
                        end;
                 intros H'; discriminate H' | ]
           end.
    intros H. discriminate H.
  - unfold operator_tokens.
    repeat (constructor; [ simpl; intros H; repeat (destruct H as [H | H];
                             [ discriminate H | ]); exact H | ]).
    constructor.
  - reflexivity.
Qed.

Lemma FromToken_total_witness :
  (exists x, FromToken token.REM = (Some x, None)) /\
  FromToken token.XOR = (None, Some ErrUnsupportedBinaryExpr).
Proof.
  split.
  - apply (proj1 (FromToken_total token.REM)). simpl. tauto.
  - apply (proj1 (proj2 (FromToken_total token.XOR))).
    simpl. intros H.
    repeat (destruct H as [H | H]; [ discriminate H | ]). exact H.
Defined.

(** * Further properties of the executors *)

(** ** The table of the arithmetic executors *)

(** Splits the tests of a zero divisor. *)
Ltac split_divisor :=
  unfold int64_quo, int64_rem, uint64_quo, uint64_rem;
  repeat match goal with
         | |- context [ ?d =? 0 ] => destruct (d =? 0)
         end.

(** What an arithmetic executor does with a fetched operand, by the
    classes of the two operands: read off the branches, case by case. *)
Lemma arith_table (op : arith) (v f : Value) (nxt : continuation)
  (calls : nat) :
  nxt calls = Returned (f, None) ->
  if supported op (class_of (Unwrap v)) (class_of (Unwrap f)) then
    (exists w,
       run (arith_Exec op v) nxt calls = (Returned (w, None), S calls) /\
       Kind w = result_kind (class_of (Unwrap v)) (class_of (Unwrap f))) \/
    (is_division op = true /\
     is_integer (class_of (Unwrap f)) = true /\
     run (arith_Exec op v) nxt calls = (Panicked DivideError, S calls))
  else
    run (arith_Exec op v) nxt calls
      = (Returned (invalidValue,
                   Some (Errorf2 "unsupported expression: "
                           (Kind (Unwrap v)) (Kind (Unwrap f)))),
         S calls).
Proof.
  intros Hn.
  destruct op; simpl arith_Exec;
    unfold ADDExprExecutor_Exec, SUBExprExecutor_Exec, MULExprExecutor_Exec,
      QUOExprExecutor_Exec, REMExprExecutor_Exec;
    rewrite (run_fetched _ _ _ _ _ Hn); cbv beta iota;
    split_operand (Unwrap v);
    cbn [Kind kind_of_int kind_of_uint kind_of_float kind_of_complex
         kind_of_other];
    cbv iota;
    split_operand (Unwrap f);
    cbn [class_of supported kind_of_uint uint_range reflect.leb reflect.num
         Z.leb Z.compare Pos.compare Pos.compare_cont andb];
    first [ reflexivity
          | left; eexists; split; reflexivity
          | simpl; split_divisor;
            first [ right; repeat split; reflexivity
                  | left; eexists; split; reflexivity ] ].
Qed.

(** X1: operands of classes with no branch.  When the two resolved
    operands are of classes an arithmetic executor has no branch for (a
    class on one side and another on the other, a text outside [+], a float
    or a complex number under [%], a boolean, a [uintptr], an aggregate or
    the zero Value a nil pointer resolves to), the call returns the invalid
    Value and the error that names the two kinds, after one invocation of
    the continuation. *)
Theorem unsupported_operand_classes (op : arith) (v f : Value)
  (nxt : continuation) (calls : nat) :
  nxt calls = Returned (f, None) ->
  supported op (class_of (Unwrap v)) (class_of (Unwrap f)) = false ->
  run (arith_Exec op v) nxt calls
    = (Returned (invalidValue,
                 Some (Errorf2 "unsupported expression: "
                         (Kind (Unwrap v)) (Kind (Unwrap f)))),
       S calls).
Proof.
  intros Hn Hs. pose proof (arith_table op v f nxt calls Hn) as H.
  rewrite Hs in H. exact H.
Qed.

Lemma unsupported_operand_classes_witness :
  run (arith_Exec REM (VFloat KFloat64 one))
      (returning (VFloat KFloat32 one)) 0
    = (Returned (invalidValue,
                 Some (errorString
                         "unsupported expression: float64, float32")),
       1%nat) /\
  run (arith_Exec ADD (VInt KInt 1)) (returning (VPointer VInvalid)) 0
    = (Returned (invalidValue,
                 Some (errorString "unsupported expression: int, invalid")),
       1%nat).
Proof.
  split.
  - apply (unsupported_operand_classes REM (VFloat KFloat64 one)
             (VFloat KFloat32 one) (returning (VFloat KFloat32 one)) 0);
      reflexivity.
  - apply (unsupported_operand_classes ADD (VInt KInt 1) (VPointer VInvalid)
             (returning (VPointer VInvalid)) 0);
      reflexivity.
Defined.

(** X2: operands of classes with a branch.  When the two resolved
    operands are of classes the executor has a branch for, the call either
    returns a value and a nil error, and the kind of the value is the wide
    one of the branch ([Int64] for two signed integers, [Uint64] as soon as
    one integer is unsigned, [Float64], [Complex128], [String]) whatever
    the widths of the operands, or it is a division or a remainder of
    integers and panics with the divide error.  No error is returned. *)
Theorem supported_operand_classes (op : arith) (v f : Value)
  (nxt : continuation) (calls : nat) :
  nxt calls = Returned (f, None) ->
  supported op (class_of (Unwrap v)) (class_of (Unwrap f)) = true ->
  (exists w,
     run (arith_Exec op v) nxt calls = (Returned (w, None), S calls) /\
     Kind w = result_kind (class_of (Unwrap v)) (class_of (Unwrap f))) \/
  (is_division op = true /\
   is_integer (class_of (Unwrap f)) = true /\
   run (arith_Exec op v) nxt calls = (Panicked DivideError, S calls)).
Proof.
  intros Hn Hs. pose proof (arith_table op v f nxt calls Hn) as H.
  rewrite Hs in H. exact H.
Qed.

Lemma supported_operand_classes_witness :
  (exists w,
     run (arith_Exec MUL (VInt KInt8 3)) (returning (VInt KInt16 4)) 0
       = (Returned (w, None), 1%nat) /\
     Kind w = reflect.Int64) \/
  (is_division MUL = true /\
   is_integer Signed = true /\
   run (arith_Exec MUL (VInt KInt8 3)) (returning (VInt KInt16 4)) 0
     = (Panicked DivideError, 1%nat)).
Proof.
  apply (supported_operand_classes MUL (VInt KInt8 3) (VInt KInt16 4)
           (returning (VInt KInt16 4)) 0); reflexivity.
Defined.

(** ** Invocations of the continuation *)

Lemma run_silent (A : Type) (m : prog A) (nxt : continuation) (calls : nat) :
  silent m -> snd (run m nxt calls) = calls.
Proof. destruct m; simpl; intros H; try reflexivity. destruct H. Qed.

(** An arithmetic executor invokes the continuation once. *)
Lemma arith_fetches_once (op : arith) (v : Value) (nxt : continuation)
  (calls : nat) :
  snd (run (arith_Exec op v) nxt calls) = S calls.
Proof.
  destruct (nxt calls) as [ [f [e | ]] | q | ] eqn:Hn.
  - destruct op; simpl arith_Exec;
      unfold ADDExprExecutor_Exec, SUBExprExecutor_Exec,
        MULExprExecutor_Exec, QUOExprExecutor_Exec, REMExprExecutor_Exec;
      rewrite (run_fetched _ _ _ _ _ Hn); reflexivity.
  - pose proof (arith_table op v f nxt calls Hn) as H.
    destruct (supported op _ _).
    + destruct H as [[w [-> _]] | [_ [_ ->]]]; reflexivity.
    + rewrite H. reflexivity.
  - destruct op; simpl arith_Exec;
      unfold ADDExprExecutor_Exec, SUBExprExecutor_Exec,
        MULExprExecutor_Exec, QUOExprExecutor_Exec, REMExprExecutor_Exec;
      rewrite run_fetch, Hn; reflexivity.
  - destruct op; simpl arith_Exec;
      unfold ADDExprExecutor_Exec, SUBExprExecutor_Exec,
        MULExprExecutor_Exec, QUOExprExecutor_Exec, REMExprExecutor_Exec;
      rewrite run_fetch, Hn; reflexivity.
Qed.

Lemma arith_error_value (op : arith) (v : Value) (nxt : continuation)
  (calls : nat) :
  error_value_invalid (fst (run (arith_Exec op v) nxt calls)).
Proof.
  destruct (nxt calls) as [ [f [e | ]] | q | ] eqn:Hn.
  - destruct op; simpl arith_Exec;
      unfold ADDExprExecutor_Exec, SUBExprExecutor_Exec,
        MULExprExecutor_Exec, QUOExprExecutor_Exec, REMExprExecutor_Exec;
      rewrite (run_fetched _ _ _ _ _ Hn); reflexivity.
  - pose proof (arith_table op v f nxt calls Hn) as H.
    destruct (supported op _ _).
    + destruct H as [[w [-> _]] | [_ [_ ->]]]; exact I.
    + rewrite H. reflexivity.
  - destruct op; simpl arith_Exec;
      unfold ADDExprExecutor_Exec, SUBExprExecutor_Exec,
        MULExprExecutor_Exec, QUOExprExecutor_Exec, REMExprExecutor_Exec;
      rewrite run_fetch, Hn; exact I.
  - destruct op; simpl arith_Exec;
      unfold ADDExprExecutor_Exec, SUBExprExecutor_Exec,
        MULExprExecutor_Exec, QUOExprExecutor_Exec, REMExprExecutor_Exec;
      rewrite run_fetch, Hn; exact I.
Qed.

Lemma comparer_fetches_once (c : Comparer) (v : Value) (nxt : continuation)
  (calls : nat) :
  snd (run (ComparerExprExecutor_Exec c v) nxt calls) = S calls.
Proof.
  unfold ComparerExprExecutor_Exec. rewrite run_fetch.
  destruct (nxt calls) as [ [f [e | ]] | q | ]; try reflexivity.
  destruct (c v f) as [[ | ] [e | ]]; reflexivity.
Qed.

Lemma comparer_error_value (c : Comparer) (v : Value) (nxt : continuation)
  (calls : nat) :
  error_value_invalid (fst (run (ComparerExprExecutor_Exec c v) nxt calls)).
Proof.
  unfold ComparerExprExecutor_Exec. rewrite run_fetch.
  destruct (nxt calls) as [ [f [e | ]] | q | ]; try exact I;
    try reflexivity.
  destruct (c v f) as [[ | ] [e | ]]; simpl; auto.
Qed.

Lemma logical_fetches_at_most_once (v : Value) (nxt : continuation)
  (calls : nat) :
  (calls <= snd (run (LANDExprExecutor_Exec v) nxt calls) <= S calls)%nat /\
  (calls <= snd (run (LORExprExecutor_Exec v) nxt calls) <= S calls)%nat /\
  (calls <= snd (run (ANDExprExecutor_Exec v) nxt calls) <= S calls)%nat /\
  (calls <= snd (run (ORExprExecutor_Exec v) nxt calls) <= S calls)%nat.
Proof.
  unfold LANDExprExecutor_Exec, LORExprExecutor_Exec, ANDExprExecutor_Exec,
    ORExprExecutor_Exec.
  split_operand (Unwrap v); simpl; try lia;
    match goal with b : bool |- _ => destruct b end; simpl; try lia;
    destruct (nxt calls) as [ [f [e | ]] | q | ]; simpl; try lia;
    split_operand (Unwrap f); simpl; lia.
Qed.

Lemma logical_error_value (v : Value) (nxt : continuation) (calls : nat) :
  error_value_invalid (fst (run (LANDExprExecutor_Exec v) nxt calls)) /\
  error_value_invalid (fst (run (LORExprExecutor_Exec v) nxt calls)) /\
  error_value_invalid (fst (run (ANDExprExecutor_Exec v) nxt calls)) /\
  error_value_invalid (fst (run (ORExprExecutor_Exec v) nxt calls)).
Proof.
  unfold LANDExprExecutor_Exec, LORExprExecutor_Exec, ANDExprExecutor_Exec,
    ORExprExecutor_Exec.
  split_operand (Unwrap v); simpl; auto;
    match goal with b : bool |- _ => destruct b end; simpl; auto;
    destruct (nxt calls) as [ [f [e | ]] | q | ]; simpl; auto;
    split_operand (Unwrap f); simpl; auto.
Qed.

Lemma NOT_fetches_once (v : Value) (nxt : continuation) (calls : nat) :
  snd (run (NOTExprExecutor_Exec v) nxt calls) = S calls /\
  error_value_invalid (fst (run (NOTExprExecutor_Exec v) nxt calls)).
Proof.
  unfold NOTExprExecutor_Exec. rewrite run_fetch.
  destruct (nxt calls) as [ [f [e | ]] | q | ]; simpl; auto.
  destruct f; simpl; auto.
Qed.

Section Executors.

Variables EqualComparer NotEqualComparer LessThanComparer
  LessThanOrEqualComparer GreaterThanComparer GreaterThanOrEqualComparer
  : Comparer.

Let exec : BinaryExprExecutor -> Value -> prog result :=
  Exec EqualComparer NotEqualComparer LessThanComparer
    LessThanOrEqualComparer GreaterThanComparer GreaterThanOrEqualComparer.

(** X3: whatever the executor, the operand, the continuation and the
    comparers, a call of [Exec] invokes the continuation at most once:
    exactly once for the comparisons, the arithmetic executors, [!] and the
    opening parenthesis, which start with the call, and never for the
    closing parenthesis and the comment. *)
Theorem continuation_invoked_at_most_once (x : BinaryExprExecutor)
  (v : Value) (nxt : continuation) (calls : nat) :
  (calls <= snd (run (exec x v) nxt calls) <= S calls)%nat /\
  (fetches_first x = true -> snd (run (exec x v) nxt calls) = S calls) /\
  (never_fetches x = true -> snd (run (exec x v) nxt calls) = calls).
Proof.
  pose proof (logical_fetches_at_most_once v nxt calls) as [H1 [H2 [H3 H4]]].
  pose proof (fun op => arith_fetches_once op v nxt calls) as Ha.
  pose proof (Ha ADD) as Hadd. pose proof (Ha SUB) as Hsub.
  pose proof (Ha MUL) as Hmul. pose proof (Ha QUO) as Hquo.
  pose proof (Ha REM) as Hrem. simpl arith_Exec in *. clear Ha.
  pose proof (proj1 (NOT_fetches_once v nxt calls)) as Hnot.
  assert (Hlp : snd (run (LPARENExprExecutor_Exec v) nxt calls) = S calls).
  { unfold LPARENExprExecutor_Exec, next. simpl.
    destruct (nxt calls) as [ r | q | ]; reflexivity. }
  destruct x; unfold exec, Exec;
    rewrite ?comparer_fetches_once, ?Hadd, ?Hsub, ?Hmul, ?Hquo, ?Hrem,
      ?Hnot, ?Hlp;
    simpl fetches_first; simpl never_fetches;
    repeat split; intros; try discriminate; try lia; try reflexivity;
    simpl; lia.
Qed.

(** X4: an executor other than the opening parenthesis, which returns
    what the continuation returned as it is, never returns a value beside
    an error: when the error is not nil the value is the invalid Value. *)
Theorem error_comes_with_invalid_value (x : BinaryExprExecutor)
  (v w : Value) (e : error) (nxt : continuation) (calls : nat) :
  x <> LPARENExprExecutor ->
  fst (run (exec x v) nxt calls) = Returned (w, Some e) ->
  w = invalidValue.
Proof.
  intros Hx H.
  assert (Hshape : error_value_invalid (fst (run (exec x v) nxt calls))).
  { pose proof (logical_error_value v nxt calls) as [H1 [H2 [H3 H4]]].
    destruct x; unfold exec, Exec;
      lazymatch goal with
      | |- context [ ComparerExprExecutor_Exec ] =>
          apply comparer_error_value
      | |- context [ ADDExprExecutor_Exec ] =>
          exact (arith_error_value ADD v nxt calls)
      | |- context [ SUBExprExecutor_Exec ] =>
          exact (arith_error_value SUB v nxt calls)
      | |- context [ MULExprExecutor_Exec ] =>
          exact (arith_error_value MUL v nxt calls)
      | |- context [ QUOExprExecutor_Exec ] =>
          exact (arith_error_value QUO v nxt calls)
      | |- context [ REMExprExecutor_Exec ] =>
          exact (arith_error_value REM v nxt calls)
      | |- context [ NOTExprExecutor_Exec ] => apply NOT_fetches_once
      | |- context [ LPARENExprExecutor_Exec ] =>
          exfalso; apply Hx; reflexivity
      | |- _ => first [ assumption | exact I ]
      end. }
  rewrite H in Hshape. exact Hshape.
Qed.

(** X5: an error of the continuation is never swallowed nor replaced:
    when the next invocation of the continuation returns the error [e], an
    executor either ends without invoking the continuation or returns [e]
    itself. *)
Theorem continuation_error_handed_on (x : BinaryExprExecutor)
  (v f : Value) (e : error) (nxt : continuation) (calls : nat) :
  nxt calls = Returned (f, Some e) ->
  snd (run (exec x v) nxt calls) = calls \/
  exists w, run (exec x v) nxt calls = (Returned (w, Some e), S calls).
Proof.
  intros Hn.
  destruct x; unfold exec, Exec;
    unfold ComparerExprExecutor_Exec, ADDExprExecutor_Exec,
      SUBExprExecutor_Exec, MULExprExecutor_Exec, QUOExprExecutor_Exec,
      REMExprExecutor_Exec, NOTExprExecutor_Exec, LPARENExprExecutor_Exec;
    rewrite ?(run_fetched _ _ _ _ _ Hn); cbv beta iota;
    try (right; eexists; reflexivity);
    try (left; reflexivity);
    try (unfold next; simpl; rewrite Hn; right; eexists; reflexivity);
    unfold LANDExprExecutor_Exec, LORExprExecutor_Exec,
      ANDExprExecutor_Exec, ORExprExecutor_Exec;
    (split_operand (Unwrap v); simpl; try (left; reflexivity);
     match goal with b : bool |- _ => destruct b end; simpl;
     try (left; reflexivity);
     rewrite Hn; right; eexists; reflexivity).
Qed.

End Executors.

(** ** The logical connectives *)

(** X6: on a pending operand that resolves to the boolean [a] and a
    fetched operand that resolves to the boolean [b], the two executors for
    the logical and return [a && b] and the two executors for the logical
    or return [a || b]; the continuation has been invoked if and only if
    the pending operand did not decide the result. *)
Theorem logical_connectives (v f : Value) (a b : bool) (nxt : continuation)
  (calls : nat) :
  Unwrap v = VBool a -> Unwrap f = VBool b ->
  nxt calls = Returned (f, None) ->
  (run (LANDExprExecutor_Exec v) nxt calls
     = (Returned (VBool (a && b), None), if a then S calls else calls) /\
   run (ANDExprExecutor_Exec v) nxt calls
     = (Returned (VBool (a && b), None), if a then S calls else calls)) /\
  (run (LORExprExecutor_Exec v) nxt calls
     = (Returned (VBool (a || b), None), if a then calls else S calls) /\
   run (ORExprExecutor_Exec v) nxt calls
     = (Returned (VBool (a || b), None), if a then calls else S calls)).
Proof.
  intros Hv Hf Hn.
  unfold LANDExprExecutor_Exec, ANDExprExecutor_Exec, LORExprExecutor_Exec,
    ORExprExecutor_Exec.
  rewrite Hv. destruct a; simpl; rewrite ?Hn; simpl; rewrite ?Hf;
    repeat split; reflexivity.
Qed.

Lemma logical_connectives_witness :
  run (ORExprExecutor_Exec (VPointer (VBool false)))
      (returning (VBool true)) 0
    = (Returned (VBool true, None), 1%nat).
Proof.
  apply (proj2 (proj2 (logical_connectives (VPointer (VBool false))
                         (VBool true) false true (returning (VBool true)) 0
                         eq_refl eq_refl eq_refl))).
Defined.

(** ** Laws of the integer arithmetic *)

Lemma wrap_int64_sub_l (a y : Z) :
  wrap_int64 (wrap_int64 a - y) = wrap_int64 (a - y).
Proof.
  unfold wrap_int64, two64. f_equal.
  replace ((a + 2 ^ 63) mod 2 ^ 64 - 2 ^ 63 - y + 2 ^ 63)
    with ((a + 2 ^ 63) mod 2 ^ 64 - y) by lia.
  rewrite Zminus_mod_idemp_l. f_equal. lia.
Qed.

Lemma wrap_int64_add_l (a y : Z) :
  wrap_int64 (wrap_int64 a + y) = wrap_int64 (a + y).
Proof.
  unfold wrap_int64, two64. f_equal.
  replace ((a + 2 ^ 63) mod 2 ^ 64 - 2 ^ 63 + y + 2 ^ 63)
    with ((a + 2 ^ 63) mod 2 ^ 64 + y) by lia.
  rewrite Zplus_mod_idemp_l. f_equal. lia.
Qed.

Lemma wrap_int64_mul_l (a y : Z) :
  wrap_int64 (wrap_int64 a * y) = wrap_int64 (a * y).
Proof.
  unfold wrap_int64, two64. f_equal.
  replace (((a + 2 ^ 63) mod 2 ^ 64 - 2 ^ 63) * y + 2 ^ 63)
    with ((a + 2 ^ 63) mod 2 ^ 64 * y + (2 ^ 63 - 2 ^ 63 * y)) by lia.
  rewrite <- Zplus_mod_idemp_l, Zmult_mod_idemp_l, Zplus_mod_idemp_l.
  f_equal. lia.
Qed.

Lemma int64_add_comm (a b : Z) : int64_add a b = int64_add b a.
Proof. unfold int64_add. rewrite Z.add_comm. reflexivity. Qed.

Lemma int64_mul_comm (a b : Z) : int64_mul a b = int64_mul b a.
Proof. unfold int64_mul. rewrite Z.mul_comm. reflexivity. Qed.

Lemma uint64_add_comm (a b : Z) : uint64_add a b = uint64_add b a.
Proof. unfold uint64_add. rewrite Z.add_comm. reflexivity. Qed.

Lemma uint64_mul_comm (a b : Z) : uint64_mul a b = uint64_mul b a.
Proof. unfold uint64_mul. rewrite Z.mul_comm. reflexivity. Qed.

(** X7: the executors for [+] and [*] are commutative on integers:
    with two operands of integer kind, signed or unsigned in any mix, the
    call ends the same way whichever operand is pending and whichever is
    fetched. *)
Theorem integer_sum_and_product_commute (p f : Value) (x y : Z) :
  integer_operand (Unwrap p) = Some x ->
  integer_operand (Unwrap f) = Some y ->
  run (ADDExprExecutor_Exec p) (returning f) 0
    = run (ADDExprExecutor_Exec f) (returning p) 0 /\
  run (MULExprExecutor_Exec p) (returning f) 0
    = run (MULExprExecutor_Exec f) (returning p) 0.
Proof.
  intros Hp Hf. unfold ADDExprExecutor_Exec, MULExprExecutor_Exec.
  rewrite !(run_fetched _ _ (returning f) 0 (f, None) eq_refl).
  rewrite !(run_fetched _ _ (returning p) 0 (p, None) eq_refl).
  cbv beta iota.
  split_operand (Unwrap p); try discriminate Hp;
    split_operand (Unwrap f); try discriminate Hf;
    simpl;
    rewrite ?(int64_add_comm n0), ?(int64_mul_comm n0),
      ?(uint64_add_comm n0), ?(uint64_mul_comm n0),
      ?(uint64_add_comm (uint64_of_int64 n0)),
      ?(uint64_mul_comm (uint64_of_int64 n0));
    split; reflexivity.
Qed.

Lemma integer_sum_and_product_commute_witness :
  run (ADDExprExecutor_Exec (VInt KInt8 (-3))) (returning (VUint KUint16 5)) 0
    = run (ADDExprExecutor_Exec (VUint KUint16 5)) (returning (VInt KInt8 (-3)))
        0.
Proof.
  apply (proj1 (integer_sum_and_product_commute (VInt KInt8 (-3))
                  (VUint KUint16 5) (-3) 5 eq_refl eq_refl)).
Defined.

(** X8: subtraction undoes addition, overflow or not: when the executor
    for [+] returns [s] for the pending signed [x] and the fetched signed
    [y], the executor for [-] returns [x] for the pending [s] and the
    fetched [y]; and likewise for two unsigned operands. *)
Theorem subtraction_undoes_addition (x y : Z) (s : Value) :
  (forall k1 k2,
     in_int64 x ->
     fst (run (ADDExprExecutor_Exec (VInt k1 x)) (returning (VInt k2 y)) 0)
       = Returned (s, None) ->
     fst (run (SUBExprExecutor_Exec s) (returning (VInt k2 y)) 0)
       = Returned (VInt KInt64 x, None)) /\
  (forall k1 k2,
     in_uint64 x ->
     k1 <> KUintptr -> k2 <> KUintptr ->
     fst (run (ADDExprExecutor_Exec (VUint k1 x)) (returning (VUint k2 y)) 0)
       = Returned (s, None) ->
     fst (run (SUBExprExecutor_Exec s) (returning (VUint k2 y)) 0)
       = Returned (VUint KUint64 x, None)).
Proof.
  split; intros k1 k2 Hx.
  - intros H. destruct k1, k2; simpl in H; injection H as <-; simpl;
      unfold int64_sub, int64_add; rewrite wrap_int64_sub_l;
      replace (x + y - y) with x by lia;
      rewrite (wrap_int64_small _ Hx); reflexivity.
  - intros Hk1 Hk2 H.
    destruct k1; try (exfalso; apply Hk1; reflexivity);
      destruct k2; try (exfalso; apply Hk2; reflexivity);
      simpl in H; injection H as <-; simpl;
      unfold uint64_sub, uint64_add, wrap_uint64;
      rewrite Zminus_mod_idemp_l;
      replace (x + y - y) with x by lia;
      change (x mod two64) with (wrap_uint64 x);
      rewrite (wrap_uint64_small _ Hx); reflexivity.
Qed.

Lemma subtraction_undoes_addition_witness :
  fst (run (SUBExprExecutor_Exec (VInt KInt64 MinInt64))
         (returning (VInt KInt8 1)) 0)
    = Returned (VInt KInt64 MaxInt64, None).
Proof.
  apply (proj1 (subtraction_undoes_addition MaxInt64 1 (VInt KInt64 MinInt64))
           KInt64 KInt8).
  - unfold in_int64, MinInt64, MaxInt64. lia.
  - reflexivity.
Defined.

(** X9: quotient and remainder recompose the dividend: for signed
    operands [x] and [y], [y] not zero, the executors for [/] and [%]
    return [q] and [r] with [q * y + r] equal to [x] in [int64] arithmetic
    (also when [q] has wrapped around) and [r] smaller than [y] in absolute
    value, of the sign of [x] or zero. *)
Theorem quotient_remainder_recompose (k1 k2 : IntKind) (x y : Z) :
  in_int64 x -> in_int64 y -> y <> 0 ->
  exists q r,
    run (QUOExprExecutor_Exec (VInt k1 x)) (returning (VInt k2 y)) 0
      = (Returned (VInt KInt64 q, None), 1%nat) /\
    run (REMExprExecutor_Exec (VInt k1 x)) (returning (VInt k2 y)) 0
      = (Returned (VInt KInt64 r, None), 1%nat) /\
    int64_add (int64_mul q y) r = x /\
    Z.abs r < Z.abs y /\ 0 <= r * x.
Proof.
  intros Hx Hy Hy0.
  exists (wrap_int64 (x ÷ y)), (wrap_int64 (Z.rem x y)).
  pose proof (Z.eqb_neq y 0) as [_ Hne]. specialize (Hne Hy0).
  split; [ | split ].
  - destruct k1, k2; simpl; unfold int64_quo; rewrite Hne; reflexivity.
  - destruct k1, k2; simpl; unfold int64_rem; rewrite Hne; reflexivity.
  - rewrite (wrap_int64_small _ (int64_rem_range x y Hy Hy0)).
    unfold int64_add, int64_mul.
    rewrite wrap_int64_mul_l, wrap_int64_add_l.
    rewrite (Z.mul_comm (x ÷ y) y), <- Z.quot_rem' .
    split; [ apply wrap_int64_small; assumption | ].
    split; [ apply Z.rem_bound_abs; assumption | ].
    apply Z.rem_sign_mul. assumption.
Qed.

Lemma quotient_remainder_recompose_witness :
  exists q r,
    run (QUOExprExecutor_Exec (VInt KInt64 MinInt64))
        (returning (VInt KInt8 (-1))) 0
      = (Returned (VInt KInt64 q, None), 1%nat) /\
    run (REMExprExecutor_Exec (VInt KInt64 MinInt64))
        (returning (VInt KInt8 (-1))) 0
      = (Returned (VInt KInt64 r, None), 1%nat) /\
    int64_add (int64_mul q (-1)) r = MinInt64 /\
    Z.abs r < Z.abs (-1) /\ 0 <= r * MinInt64.
Proof.
  apply (quotient_remainder_recompose KInt64 KInt8 MinInt64 (-1)).
  - unfold in_int64, MinInt64, MaxInt64. lia.
  - unfold in_int64, MinInt64, MaxInt64. lia.
  - lia.
Defined.

(** ** Operands behind pointers and interfaces *)



(** ** Witnesses for the executors at large *)

Lemma continuation_invoked_at_most_once_witness :
  snd (run (Exec always_true always_true always_true always_true
              always_true always_true NOTExprExecutor (VBool true))
         (fun _ => Diverged) 0) = 1%nat /\
  snd (run (Exec always_true always_true always_true always_true
              always_true always_true COMMENTExprExecutor (VBool true))
         (fun _ => Diverged) 0) = 0%nat.
Proof.
  split.
  - apply (proj1 (proj2 (continuation_invoked_at_most_once
                           always_true always_true always_true always_true
                           always_true always_true NOTExprExecutor
                           (VBool true) (fun _ => Diverged) 0))).
    reflexivity.
  - apply (proj2 (proj2 (continuation_invoked_at_most_once
                           always_true always_true always_true always_true
                           always_true always_true COMMENTExprExecutor
                           (VBool true) (fun _ => Diverged) 0))).
    reflexivity.
Defined.

Lemma error_comes_with_invalid_value_witness :
  fst (run (Exec always_true always_true always_true always_true
              always_true always_true ORExprExecutor (VInt KInt 1))
         (returning (VBool true)) 0)
    = Returned (invalidValue,
                Some (errorString "unsupported or expression: int")) /\
  invalidValue = invalidValue.
Proof.
  split; [ reflexivity | ].
  apply (error_comes_with_invalid_value
           always_true always_true always_true always_true always_true
           always_true ORExprExecutor (VInt KInt 1) invalidValue
           (errorString "unsupported or expression: int")
           (returning (VBool true)) 0).
  - discriminate.
  - reflexivity.
Defined.

Lemma continuation_error_handed_on_witness :
  snd (run (Exec always_true always_true always_true always_true
              always_true always_true EQLExprExecutor (VInt KInt 1))
         (fun _ => Returned (VInvalid, Some (errorString "no such field")))
         0) = 0%nat \/
  exists w,
    run (Exec always_true always_true always_true always_true
           always_true always_true EQLExprExecutor (VInt KInt 1))
      (fun _ => Returned (VInvalid, Some (errorString "no such field"))) 0
    = (Returned (w, Some (errorString "no such field")), 1%nat).
Proof.
  apply (continuation_error_handed_on
           always_true always_true always_true always_true always_true
           always_true EQLExprExecutor (VInt KInt 1) VInvalid
           (errorString "no such field")
           (fun _ => Returned (VInvalid, Some (errorString "no such field")))
           0).
  reflexivity.
Defined.

(** * Properties of the package juice *)

(** ** Strings *)

Lemma length_append (s t : string) :
  String.length (s ++ t) = (String.length s + String.length t)%nat.
Proof. induction s as [ | c s IH]; simpl; congruence. Qed.

Lemma substring_prefix (s t : string) :
  substring 0 (String.length s) (s ++ t) = s.
Proof.
  induction s as [ | c s IH]; simpl.
  - destruct t; reflexivity.
  - rewrite IH. reflexivity.
Qed.

Lemma substring_suffix (s t : string) :
  substring (String.length s) (String.length t) (s ++ t) = t.
Proof.
  induction s as [ | c s IH]; simpl.
  - induction t as [ | c t IHt]; simpl; congruence.
  - exact IH.
Qed.

Lemma TrimSuffix_append (s suffix : string) :
  juice.TrimSuffix (s ++ suffix) suffix = s.
Proof.
  unfold juice.TrimSuffix, juice.HasSuffix.
  rewrite length_append.
  replace (String.length s + String.length suffix - String.length suffix)%nat
    with (String.length s) by lia.
  rewrite substring_suffix, String.eqb_refl, substring_prefix.
  replace (String.length suffix <=? String.length s + String.length suffix)%nat
    with true by (symmetry; apply Nat.leb_le; lia).
  reflexivity.
Qed.

(** The bytes of a string. *)
Lemma chars_append (s t : string) :
  list_ascii_of_string (s ++ t)
    = (list_ascii_of_string s ++ list_ascii_of_string t)%list.
Proof. induction s as [ | c s IH]; simpl; congruence. Qed.

Lemma chars_substring (n : nat) (s : string) (c : ascii) :
  In c (list_ascii_of_string (substring 0 n s)) ->
  In c (list_ascii_of_string s).
Proof.
  revert n. induction s as [ | d s IH]; intros n; destruct n; simpl;
    intros H; try contradiction.
  destruct H as [H | H]; [ left; exact H | right; exact (IH n H) ].
Qed.

Lemma chars_TrimSuffix (s suffix : string) (c : ascii) :
  In c (list_ascii_of_string (juice.TrimSuffix s suffix)) ->
  In c (list_ascii_of_string s).
Proof.
  unfold juice.TrimSuffix. destruct (juice.HasSuffix s suffix); auto.
  apply chars_substring.
Qed.

(** ** The names of functions *)

(** Splits on the byte [c] being one of the bytes compared with it. *)
Ltac case_byte c :=
  repeat match goal with
         | |- context [ Ascii.eqb c ?d ] =>
             let E := fresh "E" in
             destruct (Ascii.eqb_spec c d) as [E | E]
         end.

Lemma replacement_kept (c : ascii) :
  ~ rewritten c -> juice.replacement juice.replacer c = String c "".
Proof.
  unfold rewritten. simpl. intros H.
  case_byte c; try reflexivity; exfalso; apply H; subst c; tauto.
Qed.

Lemma replacement_clean (c d : ascii) :
  In d (list_ascii_of_string (juice.replacement juice.replacer c)) ->
  ~ rewritten d.
Proof.
  unfold rewritten. simpl.
  case_byte c; simpl; intros Hd;
    repeat match goal with
           | Hd : _ \/ _ |- _ => destruct Hd as [Hd | Hd]
           | Hd : False |- _ => destruct Hd
           end;
    subst d; intros H;
    repeat (destruct H as [H | H]; [ congruence | ]); exact H.
Qed.

Lemma Replace_clean (s : string) (d : ascii) :
  In d (list_ascii_of_string (juice.Replace juice.replacer s)) ->
  ~ rewritten d.
Proof.
  induction s as [ | c s IH]; simpl.
  - intros [].
  - rewrite chars_append. intros H. apply in_app_or in H as [H | H].
    + exact (replacement_clean c d H).
    + exact (IH H).
Qed.

Lemma Replace_kept (s : string) :
  (forall c, In c (list_ascii_of_string s) -> ~ rewritten c) ->
  juice.Replace juice.replacer s = s.
Proof.
  induction s as [ | c s IH]; intros H; [ reflexivity | ].
  change (juice.Replace juice.replacer (String c s))
    with (juice.replacement juice.replacer c
            ++ juice.Replace juice.replacer s).
  rewrite replacement_kept by (apply H; left; reflexivity).
  simpl. f_equal. apply IH. intros d Hd. apply H. right. exact Hd.
Qed.

Section RuntimeFuncName.

Variable FuncForPC_Name : Z -> string.

(** X11: the name [runtimeFuncName] returns holds none of the bytes
    [replacer] rewrites: no slash, no backslash, no star and no
    parenthesis, whatever name the runtime reports. *)
Theorem runtimeFuncName_clean (addr : Z) (c : ascii) :
  In c (list_ascii_of_string (juice.runtimeFuncName FuncForPC_Name addr)) ->
  c <> "/"%char /\ c <> "\"%char /\ c <> "*"%char /\ c <> "("%char /\
  c <> ")"%char.
Proof.
  unfold juice.runtimeFuncName. intros H.
  apply chars_TrimSuffix in H. apply Replace_clean in H.
  unfold rewritten in H. simpl in H.
  repeat split; intros ->; apply H; tauto.
Qed.

(** X12: a name with none of those bytes comes back as it is, less one
    suffix [-fm] if it ends in it: the name of a method value [base-fm] is
    the name of the method, [base]. *)
Theorem runtimeFuncName_of_clean_name (addr : Z) (base : string) :
  (forall c, In c (list_ascii_of_string base) -> ~ rewritten c) ->
  (FuncForPC_Name addr = base ++ "-fm" ->
   juice.runtimeFuncName FuncForPC_Name addr = base) /\
  (FuncForPC_Name addr = base -> juice.HasSuffix base "-fm" = false ->
   juice.runtimeFuncName FuncForPC_Name addr = base).
Proof.
  intros Hclean. unfold juice.runtimeFuncName. split.
  - intros ->.
    rewrite Replace_kept.
    + apply TrimSuffix_append.
    + intros c Hc. rewrite chars_append in Hc.
      apply in_app_or in Hc as [Hc | Hc]; [ exact (Hclean c Hc) | ].
      unfold rewritten. simpl in *.
      intros H.
      repeat (destruct Hc as [<- | Hc];
              [ repeat (destruct H as [H | H]; [ discriminate H | ]);
                exact H | ]).
      exact Hc.
  - intros -> Hsuffix. rewrite (Replace_kept _ Hclean).
    unfold juice.TrimSuffix. rewrite Hsuffix. reflexivity.
Qed.

Lemma cache_sound_call (cache : juice.gomap Z string) (addr : Z) :
  cache_sound FuncForPC_Name cache ->
  fst (juice.cachedRuntimeFuncName FuncForPC_Name cache addr)
    = juice.runtimeFuncName FuncForPC_Name addr /\
  cache_sound FuncForPC_Name
    (snd (juice.cachedRuntimeFuncName FuncForPC_Name cache addr)).
Proof.
  intros Hs. unfold juice.cachedRuntimeFuncName.
  destruct (juice.map_get Z.eqb cache addr) as [name | ] eqn:Hget; simpl.
  - split; [ exact (Hs addr name Hget) | exact Hs ].
  - split; [ reflexivity | ].
    intros a n. unfold juice.map_set. simpl.
    destruct (Z.eqb_spec a addr) as [-> | Hne].
    + intros H. injection H as <-. reflexivity.
    + apply Hs.
Qed.

(** X13: the cache is transparent: whatever addresses are asked for,
    in whatever order and however often, the cached function returns for
    each call the name [runtimeFuncName] computes for the address. *)
Theorem cachedRuntimeFuncName_transparent (addrs : list Z) :
  fst (juice.cached_calls FuncForPC_Name [] addrs)
    = map (juice.runtimeFuncName FuncForPC_Name) addrs.
Proof.
  assert (H : forall cache, cache_sound FuncForPC_Name cache ->
            fst (juice.cached_calls FuncForPC_Name cache addrs)
            = map (juice.runtimeFuncName FuncForPC_Name) addrs).
  { induction addrs as [ | addr rest IH]; intros cache Hs; simpl.
    - reflexivity.
    - destruct (cache_sound_call cache addr Hs) as [Hname Hs'].
      destruct (juice.cachedRuntimeFuncName FuncForPC_Name cache addr)
        as [name cache'].
      simpl in Hname, Hs'. specialize (IH cache' Hs').
      destruct (juice.cached_calls FuncForPC_Name cache' rest)
        as [names cache''].
      simpl in *. congruence. }
  apply H. intros addr name Hget. discriminate Hget.
Qed.

(** X14: an address is resolved once: after a call for an address the
    cache holds its name, and a call for an address the cache holds leaves
    the cache as it is. *)
Theorem cachedRuntimeFuncName_once (cache : juice.gomap Z string)
  (addr : Z) :
  juice.map_get Z.eqb
    (snd (juice.cachedRuntimeFuncName FuncForPC_Name cache addr)) addr
    <> None /\
  (juice.map_get Z.eqb cache addr <> None ->
   snd (juice.cachedRuntimeFuncName FuncForPC_Name cache addr) = cache) /\
  (forall other,
     juice.map_get Z.eqb cache other <> None ->
     juice.map_get Z.eqb
       (snd (juice.cachedRuntimeFuncName FuncForPC_Name cache addr)) other
     = juice.map_get Z.eqb cache other).
Proof.
  unfold juice.cachedRuntimeFuncName.
  destruct (juice.map_get Z.eqb cache addr) as [name | ] eqn:Hget; simpl.
  - rewrite Hget. repeat split; congruence.
  - rewrite Z.eqb_refl. split; [ discriminate | ].
    split; [ congruence | ].
    intros other Hother. destruct (Z.eqb_spec other addr) as [-> | Hne].
    + congruence.
    + reflexivity.
Qed.

End RuntimeFuncName.

(** ** Attributes and providers *)

Lemma map_get_app (V : Type) (m1 m2 : juice.gomap string V) (key : string) :
  juice.map_get String.eqb (m1 ++ m2)%list key
    = match juice.map_get String.eqb m1 key with
      | Some v => Some v
      | None => juice.map_get String.eqb m2 key
      end.
Proof.
  induction m1 as [ | [k v] m1 IH]; simpl; [ reflexivity | ].
  destruct (String.eqb key k); [ reflexivity | exact IH ].
Qed.

Lemma Attr_setAttr (e : juice.Environment) (key value other : string) :
  juice.Attr (juice.setAttr e key value) other
    = if String.eqb other key then value else juice.Attr e other.
Proof.
  unfold juice.Attr, juice.setAttr, juice.map_set. simpl.
  destruct (String.eqb other key); [ reflexivity | ].
  destruct (juice.attrs e); reflexivity.
Qed.

(** X15: the attributes of an environment behave as a map with the
    empty string for a missing key: after any sequence of [setAttr], [Attr]
    returns for a key the value of the last setting of that key, and what it
    returned before the sequence (the empty string in a fresh environment)
    when no setting names the key; [ID] is the attribute [id]. *)
Theorem Attr_after_settings (e : juice.Environment)
  (settings : list (string * string)) (key : string) :
  juice.Attr (juice.setAttrs e settings) key
    = match juice.map_get String.eqb (rev settings) key with
      | Some value => value
      | None => juice.Attr e key
      end /\
  juice.ID (juice.setAttrs e settings)
    = match juice.map_get String.eqb (rev settings) "id" with
      | Some value => value
      | None => juice.ID e
      end /\
  (juice.attrs e = None -> juice.Attr e key = "").
Proof.
  assert (H : forall k,
            juice.Attr (juice.setAttrs e settings) k
            = match juice.map_get String.eqb (rev settings) k with
              | Some value => value
              | None => juice.Attr e k
              end).
  { intros k. revert e.
    induction settings as [ | [k' v'] rest IH]; intros e; simpl.
    - reflexivity.
    - unfold juice.setAttrs in *. simpl. rewrite IH.
      rewrite map_get_app. simpl.
      destruct (juice.map_get String.eqb (rev rest) k); [ reflexivity | ].
      rewrite Attr_setAttr. destruct (String.eqb k k'); reflexivity. }
  split; [ apply H | split; [ apply H | ] ].
  unfold juice.Attr. intros ->. reflexivity.
Qed.

(** X16: the registry of providers composes with the attributes: an
    environment whose attribute [provider] is set to a name gets the
    provider registered last under that name, the provider [env] of the
    package being the one of the operating system until it is registered
    anew; with a name nobody registered, and with no attribute at all in a
    registry that has no provider of the empty name, it gets the
    default [ValueProvider]. *)
Theorem provider_of_environment (libs : juice.Libraries)
  (e : juice.Environment) (name : string) (p : juice.EnvValueProvider) :
  juice.provider (juice.RegisterEnvValueProvider libs name p)
    (juice.setAttr e "provider" name) = p /\
  juice.provider juice.init (juice.setAttr e "provider" "env")
    = juice.OsEnvValueProvider /\
  (juice.map_get String.eqb libs name = None ->
   juice.provider libs (juice.setAttr e "provider" name)
     = juice.ValueProvider) /\
  (juice.attrs e = None -> juice.map_get String.eqb libs "" = None ->
   juice.provider libs e = juice.ValueProvider).
Proof.
  unfold juice.provider, juice.GetEnvValueProvider,
    juice.RegisterEnvValueProvider, juice.map_set.
  rewrite !Attr_setAttr. simpl. rewrite String.eqb_refl.
  repeat split.
  - intros ->. reflexivity.
  - intros He Hl. unfold juice.Attr. rewrite He, Hl. reflexivity.
Qed.

(** ** Connections *)

(** X17: of the two lifetimes of an environment, the one of idle
    connections, when positive, is what [Connect] sets as the maximum
    lifetime of every connection; [MaxConnLifetime] is set only when the
    other is not positive; and no setting reaches the limit on the idle time
    of a connection.  The numbers of connections are set when positive. *)
Theorem Connect_limits (sql_Open : string -> string -> option error)
  (e : juice.Environment) :
  sql_Open (juice.Driver e) (juice.DataSource e) = None ->
  exists db,
    juice.Connect sql_Open e = (Some db, None) /\
    juice.ConnMaxIdleTime db = None /\
    juice.ConnMaxLifetime db
      = (if juice.MaxIdleConnLifetime e >? 0
         then Some (juice.seconds (juice.MaxIdleConnLifetime e))
         else if juice.MaxConnLifetime e >? 0
              then Some (juice.seconds (juice.MaxConnLifetime e))
              else None) /\
    juice.MaxIdleConns db
      = (if juice.MaxIdleConnNum e >? 0
         then Some (juice.MaxIdleConnNum e) else None) /\
    juice.MaxOpenConns db
      = (if juice.MaxOpenConnNum e >? 0
         then Some (juice.MaxOpenConnNum e) else None).
Proof.
  intros Hopen. unfold juice.Connect. rewrite Hopen.
  eexists. split; [ reflexivity | ].
  destruct (juice.MaxIdleConnNum e >? 0), (juice.MaxOpenConnNum e >? 0),
    (juice.MaxConnLifetime e >? 0), (juice.MaxIdleConnLifetime e >? 0);
    repeat split; reflexivity.
Qed.

(** ** Transactions *)

Lemma Is_Join (errs : list (option juice.Err)) (e r : juice.Err)
  (target : string) :
  In (Some e) errs -> juice.Is e target = true ->
  juice.Join errs = Some r -> juice.Is r target = true.
Proof.
  unfold juice.Join. intros Hin He.
  assert (Hany : (fix any (l : list juice.Err) : bool :=
                    match l with
                    | [] => false
                    | e0 :: rest => juice.Is e0 target || any rest
                    end) (juice.non_nil errs) = true).
  { induction errs as [ | [e0 | ] rest IH]; simpl in *.
    - destruct Hin.
    - destruct Hin as [Heq | Hin].
      + injection Heq as ->. rewrite He. reflexivity.
      + rewrite (IH Hin). apply orb_true_r.
    - destruct Hin as [Heq | Hin]; [ discriminate Heq | exact (IH Hin) ]. }
  destruct (juice.non_nil errs) as [ | e0 es]; [ discriminate Hany | ].
  intros H. injection H as <-. exact Hany.
Qed.

Lemma Join_nil (errs : list (option juice.Err)) :
  juice.Join errs = None <-> forall e, ~ In (Some e) errs.
Proof.
  unfold juice.Join. split.
  - intros H e Hin.
    induction errs as [ | [e0 | ] rest IH]; simpl in *.
    + exact Hin.
    + discriminate H.
    + destruct Hin as [Heq | Hin]; [ discriminate Heq | exact (IH H Hin) ].
  - intros H.
    induction errs as [ | [e0 | ] rest IH]; simpl in *.
    + reflexivity.
    + exfalso. apply (H e0). left. reflexivity.
    + apply IH. intros e Hin. apply (H e). right. exact Hin.
Qed.

(** X18: the calls of [Transaction] follow one protocol.  With a
    manager that is not an engine nothing is called.  Otherwise the
    transaction is begun; if that fails nothing else is called; if not, the
    handler runs once, the commit is attempted when and only when the
    handler returned nil or an error that is [ErrCommitOnSpecific], and the
    rollback is called last in every case.  The options are nil exactly
    when no option function is given. *)
Theorem Transaction_protocol (manager : juice.Manager)
  (opts : list juice.TransactionOptionFunc) (a : juice.Answers) :
  let calls := snd (fst (juice.Transaction manager opts a)) in
  (juice.isEngine manager = false -> calls = []) /\
  (juice.isEngine manager = true ->
   (juice.begin a <> None -> calls = [juice.Begin]) /\
   (juice.begin a = None ->
    calls = [juice.Begin; juice.Handler; juice.Rollback] \/
    calls = [juice.Begin; juice.Handler; juice.Commit; juice.Rollback]) /\
   (In juice.Commit calls <->
    juice.begin a = None /\
    (juice.handler a = None \/
     exists err, juice.handler a = Some err /\
                 juice.Is err juice.ErrCommitOnSpecific = true)) /\
   (snd (juice.Transaction manager opts a) = None <-> opts = [])).
Proof.
  assert (Hopts : juice.options_of opts = None <-> opts = []).
  { unfold juice.options_of. destruct opts; split; congruence. }
  unfold juice.Transaction. cbv zeta.
  destruct (juice.isEngine manager); simpl.
  2: { split; [ reflexivity | intros H; discriminate H ]. }
  split; [ intros H; discriminate H | intros _ ].
  destruct (juice.begin a) as [eb | ]; simpl.
  - split; [ reflexivity | ].
    split; [ intros H; discriminate H | ].
    split; [ | exact Hopts ].
    split.
    + intros [Hc | []]. discriminate Hc.
    + intros [Hb _]. discriminate Hb.
  - split; [ intros H; exfalso; apply H; reflexivity | ].
    destruct (juice.handler a) as [eh | ];
      [ destruct (juice.Is eh juice.ErrCommitOnSpecific) eqn:His | ];
      simpl.
    + split; [ intros _; right; reflexivity | ].
      split; [ | exact Hopts ].
      split; [ intros _ | intros _; tauto ].
      split; [ reflexivity | ].
      right. exists eh. split; [ reflexivity | exact His ].
    + split; [ intros _; left; reflexivity | ].
      split; [ | exact Hopts ].
      split.
      * intros [Hc | [Hc | [Hc | []]]]; discriminate Hc.
      * intros [_ [Hn | [err [Heq Herr]]]]; [ discriminate Hn | ].
        injection Heq as <-. congruence.
    + split; [ intros _; right; reflexivity | ].
      split; [ | exact Hopts ].
      split; [ intros _ | intros _; tauto ].
      split; [ reflexivity | left; reflexivity ].
Qed.

(** ** Statements in batches *)

Lemma indices_step (i : Z) (count : nat) :
  indices i (S count) = i :: indices (i + 1) count.
Proof.
  unfold indices. simpl. rewrite Z.add_0_r. f_equal.
  rewrite <- seq_shift, map_map. apply map_ext. intros k. lia.
Qed.

Lemma batch_count_bounds (batchSize length : Z) :
  0 < batchSize -> 0 < length ->
  0 < batch_count batchSize length /\
  (batch_count batchSize length - 1) * batchSize < length /\
  length <= batch_count batchSize length * batchSize /\
  batch_count batchSize length * batchSize <= length + batchSize - 1.
Proof.
  intros Hb Hl. unfold batch_count.
  pose proof (Z.div_mod (length + batchSize - 1) batchSize ltac:(lia)) as Hdm.
  pose proof (Z.mod_pos_bound (length + batchSize - 1) batchSize Hb) as Hm.
  assert (0 < (length + batchSize - 1) / batchSize).
  { apply Z.div_str_pos. lia. }
  nia.
Qed.

Section Batch.

Variables Param Result : Type.
Variable IndirectKind : Param -> reflect.Kind.
Variable Len : Param -> Z.
Variable Slice : Param -> Z -> Z -> option Param.
Variable execContext : nat -> Param -> option Result * option juice.Err.

Let ExecContext :=
  juice.ExecContext Param Result IndirectKind Len Slice execContext.
Let batch_loop := juice.batch_loop Param Result Slice execContext.

(** The batch of an index, [part] being what the cuts of the parameter
    give. *)
Let batch (part : Z -> Z -> Param) (batchSize : Z) (param : Param) (j : Z)
  : Param :=
  part (batch_start batchSize j) (batch_end batchSize (Len param) j).

(** X19: what [ExecContext] refuses, it refuses before any statement is
    executed: a batch size that is no decimal [int64], a batch size that is
    not positive, a parameter that is neither a slice nor an array, and an
    empty one each give nil and an error, with no call of [execContext]. *)
Theorem ExecContext_refusals (statement : juice.Statement) (param : Param) :
  juice.isInsert statement = true ->
  juice.Attribute statement "batchSize" <> "" ->
  ((exists err,
      juice.ParseInt (juice.Attribute statement "batchSize") = inr err) \/
   (exists batchSize,
      juice.ParseInt (juice.Attribute statement "batchSize") = inl batchSize
      /\ (batchSize <= 0 \/
          (IndirectKind param <> reflect.Slice /\
           IndirectKind param <> reflect.Array) \/
          Len param = 0))) ->
  exists e, ExecContext statement param = (juice.Returns (None, Some e), []).
Proof.
  intros Hins Hattr Hcase. unfold ExecContext, juice.ExecContext.
  rewrite Hins. simpl negb. cbv iota.
  destruct (juice.Attribute statement "batchSize") as [ | c s] eqn:Hs;
    [ exfalso; apply Hattr; reflexivity | ].
  simpl String.length. simpl Nat.eqb. cbv iota.
  destruct Hcase as [[err ->] | [batchSize [-> Hcase]]].
  - eexists. reflexivity.
  - destruct (Z.leb_spec batchSize 0) as [Hle | Hgt];
      [ eexists; reflexivity | ].
    destruct Hcase as [Hle | [[Hk1 Hk2] | Hlen]]; [ lia | | ].
    + destruct (IndirectKind param); try (eexists; reflexivity);
        exfalso; auto.
    + rewrite Hlen. simpl.
      destruct (IndirectKind param); eexists; reflexivity.
Qed.

(** One turn of the loop: the bounds of the batch, and its cut. *)
Lemma batch_loop_turn (batchSize : Z) (param : Param)
  (part : Z -> Z -> Param) (i : Z) :
  sliceable Len Slice param part ->
  0 < batchSize -> 0 <= i -> i * batchSize < Len param ->
  (i + 1) * batchSize <= MaxInt64 ->
  int64_add i 1 = i + 1 /\
  Slice param (int64_mul i batchSize)
    (if int64_mul (int64_add i 1) batchSize >? Len param then Len param
     else int64_mul (int64_add i 1) batchSize)
  = Some (batch part batchSize param i).
Proof.
  intros Hslice Hb Hi Hin Hmax.
  assert (Hi1 : int64_add i 1 = i + 1).
  { apply wrap_int64_small. unfold in_int64, MinInt64, MaxInt64 in *. nia. }
  assert (Hs : int64_mul i batchSize = i * batchSize).
  { apply wrap_int64_small. unfold in_int64, MinInt64, MaxInt64 in *. nia. }
  assert (He : int64_mul (i + 1) batchSize = (i + 1) * batchSize).
  { apply wrap_int64_small. unfold in_int64, MinInt64, MaxInt64 in *. nia. }
  split; [ exact Hi1 | ].
  rewrite Hi1, Hs, He.
  replace (if (i + 1) * batchSize >? Len param then Len param
           else (i + 1) * batchSize)
    with (batch_end batchSize (Len param) i).
  2: { unfold batch_end. destruct (Z.gtb_spec ((i + 1) * batchSize)
                                     (Len param)); lia. }
  unfold batch, batch_start. apply Hslice; unfold batch_end; nia.
Qed.

(** The loop, when no call fails. *)
Lemma batch_loop_succeeds (batchSize : Z) (param : Param)
  (part : Z -> Z -> Param)
  (remaining : nat) (i : Z) (n : nat) (result : option Result) :
  sliceable Len Slice param part ->
  (forall m p, snd (execContext m p) = None) ->
  0 < batchSize -> 0 <= i ->
  (i + Z.of_nat remaining) * batchSize <= MaxInt64 ->
  (remaining = 0%nat \/
   (i + Z.of_nat remaining - 1) * batchSize < Len param) ->
  batch_loop remaining i batchSize (Len param) param n result
    = (juice.Returns
         (match remaining with
          | O => result
          | S r =>
              fst (execContext (n + r)
                     (batch part batchSize param (i + Z.of_nat r)))
          end, None),
       map (batch part batchSize param) (indices i remaining)).
Proof.
  intros Hslice Hok Hb. revert i n result.
  induction remaining as [ | r IH]; intros i n result Hi Hmax Hin.
  - reflexivity.
  - destruct Hin as [Hin | Hin]; [ discriminate Hin | ].
    unfold batch_loop in *. cbn [juice.batch_loop].
    destruct (batch_loop_turn batchSize param part i Hslice Hb Hi
                ltac:(nia) ltac:(nia)) as [Hi1 Hcut].
    rewrite Hcut, Hi1.
    pose proof (Hok n (batch part batchSize param i)) as Hcall.
    destruct (execContext n (batch part batchSize param i)) as [res err]
      eqn:Hc.
    simpl in Hcall. subst err.
    rewrite (IH (i + 1) (S n) res)
      by first [ lia | destruct r; [ left; reflexivity | right; nia ] ].
    rewrite indices_step. simpl map. f_equal. f_equal. f_equal.
    destruct r as [ | r'].
    + simpl. rewrite Nat.add_0_r, Z.add_0_r, Hc. reflexivity.
    + replace (S n + r')%nat with (n + S r')%nat by lia.
      replace (i + 1 + Z.of_nat r') with (i + Z.of_nat (S r')) by lia.
      reflexivity.
Qed.

(** The number of iterations of the loop. *)
Lemma ExecContext_times (batchSize length : Z) :
  0 < batchSize -> 0 < length -> length + batchSize - 1 <= MaxInt64 ->
  wrap_int64 (int64_sub (int64_add length batchSize) 1 ÷ batchSize)
    = batch_count batchSize length.
Proof.
  intros Hb Hlen Hmax.
  pose proof (batch_count_bounds batchSize length Hb Hlen)
    as [Hc0 [Hc1 [Hc2 Hc3]]].
  unfold int64_sub, int64_add. rewrite wrap_int64_sub_l.
  rewrite (wrap_int64_small (length + batchSize - 1))
    by (unfold in_int64, MinInt64, MaxInt64 in *; lia).
  rewrite Z.quot_div_nonneg by lia.
  apply wrap_int64_small.
  unfold in_int64, MinInt64, MaxInt64 in *.
  fold (batch_count batchSize length). nia.
Qed.

(** What [ExecContext] calls and returns, when no call fails. *)
Lemma ExecContext_runs_batches (statement : juice.Statement) (param : Param)
  (batchSize : Z) (part : Z -> Z -> Param) :
  juice.isInsert statement = true ->
  juice.Attribute statement "batchSize" <> "" ->
  juice.ParseInt (juice.Attribute statement "batchSize") = inl batchSize ->
  0 < batchSize ->
  IndirectKind param = reflect.Slice \/ IndirectKind param = reflect.Array ->
  sliceable Len Slice param part ->
  0 < Len param -> Len param + batchSize - 1 <= MaxInt64 ->
  (forall m p, snd (execContext m p) = None) ->
  ExecContext statement param
    = (juice.Returns
         (fst (execContext (Z.to_nat (batch_count batchSize (Len param)) - 1)
                 (batch part batchSize param
                    (batch_count batchSize (Len param) - 1))), None),
       map (batch part batchSize param)
         (indices 0 (Z.to_nat (batch_count batchSize (Len param))))).
Proof.
  intros Hins Hattr Hparse Hb Hkind Hslice Hlen Hmax Hok.
  pose proof (batch_count_bounds batchSize (Len param) Hb Hlen)
    as [Hc0 [Hc1 [Hc2 Hc3]]].
  unfold ExecContext, juice.ExecContext.
  rewrite Hins. simpl negb. cbv iota.
  destruct (juice.Attribute statement "batchSize") as [ | c s] eqn:Hs;
    [ exfalso; apply Hattr; reflexivity | ].
  simpl String.length. simpl Nat.eqb. cbv iota.
  rewrite Hparse.
  destruct (Z.leb_spec batchSize 0) as [Hle | _]; [ lia | ].
  rewrite (ExecContext_times batchSize (Len param) Hb Hlen Hmax).
  pose proof (batch_loop_succeeds batchSize param part
                (Z.to_nat (batch_count batchSize (Len param))) 0
                0%nat None Hslice Hok Hb ltac:(lia)) as Hl.
  unfold batch_loop in Hl.
  rewrite Z2Nat.id in Hl by lia.
  specialize (Hl ltac:(lia) ltac:(right; lia)).
  destruct (Z.to_nat (batch_count batchSize (Len param))) as [ | r] eqn:Hr;
    [ lia | ].
  replace (S r - 1)%nat with r by lia.
  replace (batch_count batchSize (Len param) - 1) with (Z.of_nat r) by lia.
  rewrite Nat.add_0_l, Z.add_0_l in Hl.
  destruct Hkind as [-> | ->];
    (destruct (Z.eqb_spec (Len param) 0) as [H0 | _]; [ lia | ]);
    exact Hl.
Qed.

(** X20: the batches of an insert.  With a batch size [batchSize] above
    zero, a parameter of [length] elements that is a slice, or an array
    that can be cut (an array passed by value cannot: it is not
    addressable), [length] above zero and [length + batchSize - 1] within
    [int64], and no failing call, [ExecContext] calls [execContext] once
    per batch, in order, on the parts
    [j * batchSize, min ((j+1) * batchSize, length)) of the parameter for
    [j] from zero to the number of batches, the quotient of [length] by
    [batchSize] rounded up; it returns the result of the last call and a nil
    error.  The parts tile the parameter: the first starts at zero, each
    holds between one and [batchSize] elements and ends where the next
    starts, the last ends at [length]. *)
Theorem ExecContext_batches (statement : juice.Statement) (param : Param)
  (batchSize : Z) (part : Z -> Z -> Param) :
  juice.isInsert statement = true ->
  juice.Attribute statement "batchSize" <> "" ->
  juice.ParseInt (juice.Attribute statement "batchSize") = inl batchSize ->
  0 < batchSize ->
  IndirectKind param = reflect.Slice \/ IndirectKind param = reflect.Array ->
  sliceable Len Slice param part ->
  0 < Len param -> Len param + batchSize - 1 <= MaxInt64 ->
  (forall m p, snd (execContext m p) = None) ->
  let count := batch_count batchSize (Len param) in
  ExecContext statement param
    = (juice.Returns
         (fst (execContext (Z.to_nat count - 1)
                 (batch part batchSize param (count - 1))), None),
       map (batch part batchSize param) (indices 0 (Z.to_nat count))) /\
  (forall j, 0 <= j < count ->
     batch_start batchSize j < batch_end batchSize (Len param) j /\
     batch_end batchSize (Len param) j - batch_start batchSize j
       <= batchSize /\
     (j + 1 < count ->
      batch_end batchSize (Len param) j = batch_start batchSize (j + 1))) /\
  batch_start batchSize 0 = 0 /\
  batch_end batchSize (Len param) (count - 1) = Len param.
Proof.
  intros Hins Hattr Hparse Hb Hkind Hslice Hlen Hmax Hok count.
  pose proof (batch_count_bounds batchSize (Len param) Hb Hlen)
    as [Hc0 [Hc1 [Hc2 Hc3]]].
  fold count in Hc0, Hc1, Hc2, Hc3.
  split; [ | split; [ | split ] ].
  - apply ExecContext_runs_batches; assumption.
  - intros j Hj. unfold batch_start, batch_end. repeat split; nia.
  - reflexivity.
  - unfold batch_end. replace (count - 1 + 1) with count by lia.
    apply Z.min_r. lia.
Qed.

(** The loop, when a call fails. *)
Lemma batch_loop_fails (batchSize : Z) (param : Param)
  (part : Z -> Z -> Param) (e : juice.Err)
  (k remaining : nat) (i : Z) (n : nat) (result : option Result) :
  sliceable Len Slice param part ->
  (k < remaining)%nat ->
  (forall m, (m < k)%nat ->
     snd (execContext (n + m) (batch part batchSize param (i + Z.of_nat m)))
     = None) ->
  snd (execContext (n + k) (batch part batchSize param (i + Z.of_nat k)))
    = Some e ->
  0 < batchSize -> 0 <= i ->
  (i + Z.of_nat remaining) * batchSize <= MaxInt64 ->
  (i + Z.of_nat remaining - 1) * batchSize < Len param ->
  batch_loop remaining i batchSize (Len param) param n result
    = (juice.Returns (None, Some e),
       map (batch part batchSize param) (indices i (S k))).
Proof.
  intros Hslice Hk Hbefore Hfail Hb. revert k i n result Hk Hbefore Hfail.
  induction remaining as [ | r IH]; intros k i n result Hk Hbefore Hfail
    Hi Hmax Hin; [ lia | ].
  unfold batch_loop in *. cbn [juice.batch_loop].
  destruct (batch_loop_turn batchSize param part i Hslice Hb Hi
              ltac:(nia) ltac:(nia)) as [Hi1 Hcut].
  rewrite Hcut, Hi1.
  destruct k as [ | k'].
  - rewrite Nat.add_0_r, Z.add_0_r in Hfail.
    destruct (execContext n (batch part batchSize param i)) as [res err].
    simpl in Hfail. subst err. rewrite indices_step. reflexivity.
  - pose proof (Hbefore 0%nat ltac:(lia)) as H0.
    rewrite Nat.add_0_r, Z.add_0_r in H0.
    destruct (execContext n (batch part batchSize param i)) as [res err].
    simpl in H0. subst err.
    rewrite (IH k' (i + 1) (S n) res); try lia.
    + rewrite (indices_step i (S k')). reflexivity.
    + intros m Hm. specialize (Hbefore (S m) ltac:(lia)).
      replace (S n + m)%nat with (n + S m)%nat by lia.
      replace (i + 1 + Z.of_nat m) with (i + Z.of_nat (S m)) by lia.
      exact Hbefore.
    + replace (S n + k')%nat with (n + S k')%nat by lia.
      replace (i + 1 + Z.of_nat k') with (i + Z.of_nat (S k')) by lia.
      exact Hfail.
Qed.

(** X21: the first failure stops an insert in batches.  The parameter is
    a slice, or an array that can be cut.  When the calls for the batches
    before the [k]-th succeed and the call for the [k]-th returns the error
    [e], [ExecContext] returns nil and [e] itself; the batches up to the
    [k]-th have been executed, in order, and none after it. *)
Theorem ExecContext_stops_at_failure (statement : juice.Statement)
  (param : Param) (batchSize : Z) (part : Z -> Z -> Param)
  (k : nat) (e : juice.Err) :
  juice.isInsert statement = true ->
  juice.Attribute statement "batchSize" <> "" ->
  juice.ParseInt (juice.Attribute statement "batchSize") = inl batchSize ->
  0 < batchSize ->
  IndirectKind param = reflect.Slice \/ IndirectKind param = reflect.Array ->
  sliceable Len Slice param part ->
  0 < Len param -> Len param + batchSize - 1 <= MaxInt64 ->
  Z.of_nat k < batch_count batchSize (Len param) ->
  (forall m, (m < k)%nat ->
     snd (execContext m (batch part batchSize param (Z.of_nat m))) = None) ->
  snd (execContext k (batch part batchSize param (Z.of_nat k))) = Some e ->
  ExecContext statement param
    = (juice.Returns (None, Some e),
       map (batch part batchSize param) (indices 0 (S k))).
Proof.
  intros Hins Hattr Hparse Hb Hkind Hslice Hlen Hmax Hk Hbefore Hfail.
  pose proof (batch_count_bounds batchSize (Len param) Hb Hlen)
    as [Hc0 [Hc1 [Hc2 Hc3]]].
  unfold ExecContext, juice.ExecContext.
  rewrite Hins. simpl negb. cbv iota.
  destruct (juice.Attribute statement "batchSize") as [ | c s] eqn:Hs;
    [ exfalso; apply Hattr; reflexivity | ].
  simpl String.length. simpl Nat.eqb. cbv iota.
  rewrite Hparse.
  destruct (Z.leb_spec batchSize 0) as [Hle | _]; [ lia | ].
  rewrite (ExecContext_times batchSize (Len param) Hb Hlen Hmax).
  pose proof (batch_loop_fails batchSize param part e k
                (Z.to_nat (batch_count batchSize (Len param))) 0 0%nat None
                Hslice ltac:(lia)) as Hl.
  unfold batch_loop in Hl. simpl in Hl.
  specialize (Hl Hbefore Hfail Hb ltac:(lia)).
  rewrite Z2Nat.id in Hl by lia. specialize (Hl ltac:(lia) ltac:(lia)).
  destruct Hkind as [-> | ->];
    (destruct (Z.eqb_spec (Len param) 0) as [H0 | _]; [ lia | ]);
    exact Hl.
Qed.

(** X28: an array passed by value cannot be sent in batches.  When the
    first cut of the parameter panics, as [reflect.Value.Slice] does on an
    array that is not addressable, [ExecContext] panics before any statement
    is executed, whatever the batch size and the number of elements. *)
Theorem ExecContext_unaddressable_array (statement : juice.Statement)
  (param : Param) (batchSize : Z) :
  juice.isInsert statement = true ->
  juice.Attribute statement "batchSize" <> "" ->
  juice.ParseInt (juice.Attribute statement "batchSize") = inl batchSize ->
  0 < batchSize ->
  IndirectKind param = reflect.Array ->
  Slice param (batch_start batchSize 0) (batch_end batchSize (Len param) 0)
    = None ->
  0 < Len param -> Len param + batchSize - 1 <= MaxInt64 ->
  ExecContext statement param = (juice.SlicePanics, []).
Proof.
  intros Hins Hattr Hparse Hb Hkind Hcut Hlen Hmax.
  pose proof (batch_count_bounds batchSize (Len param) Hb Hlen)
    as [Hc0 [Hc1 [Hc2 Hc3]]].
  unfold ExecContext, juice.ExecContext.
  rewrite Hins. simpl negb. cbv iota.
  destruct (juice.Attribute statement "batchSize") as [ | c s] eqn:Hs;
    [ exfalso; apply Hattr; reflexivity | ].
  simpl String.length. simpl Nat.eqb. cbv iota.
  rewrite Hparse.
  destruct (Z.leb_spec batchSize 0) as [Hle | _]; [ lia | ].
  rewrite (ExecContext_times batchSize (Len param) Hb Hlen Hmax).
  rewrite Hkind.
  destruct (Z.eqb_spec (Len param) 0) as [H0 | _]; [ lia | ].
  destruct (Z.to_nat (batch_count batchSize (Len param))) as [ | r] eqn:Hr;
    [ lia | ].
  cbn [juice.batch_loop].
  assert (Hi1 : int64_add 0 1 = 1) by reflexivity.
  assert (Hstart : int64_mul 0 batchSize = 0) by reflexivity.
  assert (Hend : int64_mul 1 batchSize = batchSize).
  { unfold int64_mul. rewrite Z.mul_1_l. apply wrap_int64_small.
    unfold in_int64, MinInt64, MaxInt64 in *. lia. }
  rewrite Hi1, Hstart, Hend.
  replace (if batchSize >? Len param then Len param else batchSize)
    with (batch_end batchSize (Len param) 0).
  2: { unfold batch_end. destruct (Z.gtb_spec batchSize (Len param)); lia. }
  change 0 with (batch_start batchSize 0) at 1.
  rewrite Hcut. reflexivity.
Qed.

(** X22: a batch size too large for the arithmetic of [int].  When
    [length + batchSize - 1] does not fit [int64], a batch size within
    [int64] and a parameter of one element at least notwithstanding, the
    number of batches comes out below one: [ExecContext] executes nothing
    and returns a nil result with a nil error. *)
Theorem ExecContext_batch_size_overflow (statement : juice.Statement)
  (param : Param) (batchSize : Z) :
  juice.isInsert statement = true ->
  juice.Attribute statement "batchSize" <> "" ->
  juice.ParseInt (juice.Attribute statement "batchSize") = inl batchSize ->
  0 < batchSize <= MaxInt64 ->
  IndirectKind param = reflect.Slice \/ IndirectKind param = reflect.Array ->
  0 < Len param <= MaxInt64 ->
  MaxInt64 < Len param + batchSize - 1 ->
  ExecContext statement param = (juice.Returns (None, None), []).
Proof.
  intros Hins Hattr Hparse Hb Hkind Hlen Hover.
  unfold ExecContext, juice.ExecContext.
  rewrite Hins. simpl negb. cbv iota.
  destruct (juice.Attribute statement "batchSize") as [ | c s] eqn:Hs;
    [ exfalso; apply Hattr; reflexivity | ].
  simpl String.length. simpl Nat.eqb. cbv iota.
  rewrite Hparse.
  destruct (Z.leb_spec batchSize 0) as [Hle | _]; [ lia | ].
  assert (Htimes :
    Z.to_nat (wrap_int64
                (int64_sub (int64_add (Len param) batchSize) 1 ÷ batchSize))
    = 0%nat).
  { unfold int64_sub, int64_add. rewrite wrap_int64_sub_l.
    assert (Hw : wrap_int64 (Len param + batchSize - 1)
                 = Len param + batchSize - 1 - 2 ^ 64).
    { unfold wrap_int64, two64, MaxInt64 in *.
      assert (Hm : (Len param + batchSize - 1 + 2 ^ 63) mod 2 ^ 64
                   = Len param + batchSize - 1 + 2 ^ 63 - 2 ^ 64).
      { symmetry. apply Z.mod_unique with (q := 1); lia. }
      rewrite Hm. lia. }
    rewrite Hw.
    assert (Hneg : (Len param + batchSize - 1 - 2 ^ 64) ÷ batchSize <= 0).
    { apply Z.quot_le_upper_bound; [ lia | ].
      unfold MaxInt64 in *. lia. }
    assert (Hlow : MinInt64 <= (Len param + batchSize - 1 - 2 ^ 64)
                                 ÷ batchSize).
    { apply Z.quot_le_lower_bound; [ lia | ].
      unfold MinInt64, MaxInt64 in *. nia. }
    rewrite wrap_int64_small
      by (unfold in_int64, MinInt64, MaxInt64 in *; lia).
    lia. }
  rewrite Htimes.
  destruct Hkind as [-> | ->];
    (destruct (Z.eqb_spec (Len param) 0) as [H0 | _]; [ lia | ]);
    reflexivity.
Qed.

End Batch.

(** ** Batches of a list *)

Lemma firstn_then_more (A : Type) (a b : nat) (l : list A) :
  (firstn a l ++ firstn b (skipn a l))%list = firstn (a + b) l.
Proof.
  revert l. induction a as [ | a IH]; intros l; simpl.
  - reflexivity.
  - destruct l as [ | x l]; simpl.
    + destruct b; reflexivity.
    + rewrite IH. reflexivity.
Qed.

Section BatchesOfList.

Variable A : Type.
Variable l : list A.
Variable batchSize : Z.
Hypothesis batchSize_positive : 0 < batchSize.

Let part (j : Z) : list A :=
  list_part l (batch_start batchSize j)
    (batch_end batchSize (list_Len l) j).

Lemma parts_concat (count : nat) (i : Z) :
  0 <= i ->
  (count = 0%nat \/ (i + Z.of_nat count - 1) * batchSize < list_Len l) ->
  i * batchSize <= list_Len l ->
  concat (map part (indices i count))
    = firstn
        (Z.to_nat (Z.min ((i + Z.of_nat count) * batchSize) (list_Len l)
                   - i * batchSize))
        (skipn (Z.to_nat (i * batchSize)) l).
Proof.
  revert i. induction count as [ | r IH]; intros i Hi Hin Hle.
  - simpl. replace (Z.to_nat _) with 0%nat by lia. reflexivity.
  - rewrite indices_step. simpl concat.
    destruct Hin as [Hin | Hin]; [ discriminate Hin | ].
    assert (Hnext : (i + 1) * batchSize <= list_Len l \/ r = 0%nat).
    { destruct r; [ right; reflexivity | left; nia ]. }
    assert (Hin' : r = 0%nat
                   \/ (i + 1 + Z.of_nat r - 1) * batchSize < list_Len l).
    { destruct r; [ left; reflexivity | right ].
      replace (i + 1 + Z.of_nat (S r) - 1)
        with (i + Z.of_nat (S (S r)) - 1) by lia.
      exact Hin. }
    destruct r as [ | r'].
    + simpl map. simpl concat. rewrite app_nil_r.
      unfold part, list_part, batch_start, batch_end.
      replace (i + Z.of_nat 1) with (i + 1) by lia. reflexivity.
    + destruct Hnext as [Hnext | Hnext]; [ | discriminate Hnext ].
      rewrite (IH (i + 1)) by (assumption || lia).
      unfold part, list_part, batch_start, batch_end.
      assert (Hfull : (i + 1) * batchSize <= list_Len l) by exact Hnext.
      rewrite Z.min_l by lia.
      replace (Z.to_nat ((i + 1) * batchSize))
        with (Z.to_nat ((i + 1) * batchSize - i * batchSize)
              + Z.to_nat (i * batchSize))%nat by nia.
      rewrite <- skipn_skipn, firstn_then_more. f_equal. nia.
Qed.

Lemma part_length (j : Z) :
  0 <= j -> j * batchSize < list_Len l ->
  Z.of_nat (length (part j))
    = batch_end batchSize (list_Len l) j - batch_start batchSize j.
Proof.
  intros Hj Hlt.
  unfold part, list_part, batch_start, batch_end, list_Len in *.
  rewrite length_firstn, length_skipn. lia.
Qed.

End BatchesOfList.

(** A slice can be cut within its bounds. *)
Lemma list_sliceable (A : Type) (l : list A) :
  sliceable list_Len list_Slice l (list_part l).
Proof.
  intros start end_ [Hs He] Hl. unfold list_Slice.
  destruct (Z.leb_spec 0 start); [ | lia ].
  destruct (Z.leb_spec start end_); [ | lia ].
  destruct (Z.leb_spec end_ (list_Len l)); [ | lia ].
  reflexivity.
Qed.

(** X23: the batches of a slice put together are the slice.  For a
    parameter that is a slice of the elements [l], in the conditions of the
    theorem on batches, the parameters of the calls of [execContext],
    one after the other, are [l]: no element is left out, none is sent
    twice, and the order is kept; each call gets one element at least and
    [batchSize] at most. *)
Theorem ExecContext_batches_cover (A Result : Type)
  (execContext : nat -> list A -> option Result * option juice.Err)
  (statement : juice.Statement) (l : list A) (batchSize : Z) :
  juice.isInsert statement = true ->
  juice.Attribute statement "batchSize" <> "" ->
  juice.ParseInt (juice.Attribute statement "batchSize") = inl batchSize ->
  0 < batchSize ->
  l <> [] -> list_Len l + batchSize - 1 <= MaxInt64 ->
  (forall m p, snd (execContext m p) = None) ->
  let calls :=
    snd (juice.ExecContext (list A) Result (fun _ => reflect.Slice)
           list_Len list_Slice execContext statement l) in
  concat calls = l /\
  Forall (fun p => 1 <= Z.of_nat (length p) <= batchSize) calls /\
  Z.of_nat (length calls) = batch_count batchSize (list_Len l).
Proof.
  intros Hins Hattr Hparse Hb Hl Hmax Hok calls.
  assert (Hlen : 0 < list_Len l).
  { unfold list_Len. destruct l; [ congruence | simpl; lia ]. }
  pose proof (ExecContext_runs_batches (list A) Result
                (fun _ => reflect.Slice) list_Len list_Slice execContext
                statement l batchSize (list_part l)
                Hins Hattr Hparse Hb (or_introl eq_refl)
                (list_sliceable A l) Hlen Hmax Hok)
    as Hcalls.
  pose proof (batch_count_bounds batchSize (list_Len l) Hb Hlen)
    as [Hc0 [Hc1 [Hc2 Hc3]]].
  unfold calls. rewrite Hcalls. simpl snd. clear Hcalls calls.
  split; [ | split ].
  - pose proof (parts_concat A l batchSize Hb
                  (Z.to_nat (batch_count batchSize (list_Len l))) 0
                  ltac:(lia)) as Hcat.
    rewrite Z2Nat.id in Hcat by lia.
    rewrite Hcat by (try right; lia).
    simpl. rewrite Z.min_r by lia. rewrite Z.sub_0_r. unfold list_Len.
    rewrite Nat2Z.id. apply firstn_all.
  - apply Forall_forall. intros p Hp. apply in_map_iff in Hp as [j [<- Hj]].
    unfold indices in Hj. apply in_map_iff in Hj as [k [<- Hk]].
    apply in_seq in Hk. simpl in Hk.
    assert (Hjr : 0 <= Z.of_nat k < batch_count batchSize (list_Len l))
      by lia.
    rewrite (part_length A l batchSize Hb (0 + Z.of_nat k));
      [ unfold batch_start, batch_end; nia | lia | nia ].
  - rewrite length_map. unfold indices. rewrite length_map, length_seq.
    lia.
Qed.

Lemma deferred_rollback_clean (a : juice.Answers) (err : option juice.Err) :
  clean_rollback a -> juice.deferred_rollback a err = err.
Proof.
  unfold juice.deferred_rollback. intros [-> | [r [-> ->]]]; reflexivity.
Qed.

Lemma deferred_rollback_nil (a : juice.Answers) (err : option juice.Err) :
  juice.deferred_rollback a err = None <-> err = None /\ clean_rollback a.
Proof.
  unfold juice.deferred_rollback, clean_rollback.
  destruct (juice.rollback a) as [r | ].
  - destruct (juice.Is r juice.ErrTxDone) eqn:His; simpl.
    + split.
      * intros ->. split; [ reflexivity | ]. right. exists r. auto.
      * intros [-> _]. reflexivity.
    + split.
      * destruct err; discriminate.
      * intros [_ [H | [r' [H Hr]]]]; [ discriminate H | ].
        injection H as <-. congruence.
  - split.
    + intros ->. split; [ reflexivity | left; reflexivity ].
    + intros [-> _]. reflexivity.
Qed.

Lemma deferred_rollback_keeps (a : juice.Answers) (e r : juice.Err)
  (target : string) :
  juice.Is e target = true ->
  juice.deferred_rollback a (Some e) = Some r ->
  juice.Is r target = true.
Proof.
  unfold juice.deferred_rollback. intros He.
  destruct (juice.rollback a) as [rb | ].
  - destruct (negb (juice.Is rb juice.ErrTxDone)).
    + intros H. apply (Is_Join _ e r target) in H; auto. left. reflexivity.
    + intros H. injection H as <-. exact He.
  - intros H. injection H as <-. exact He.
Qed.

(** X24: what [Transaction] returns with an engine.  It returns nil
    when and only when the transaction began, the handler returned nil, the
    commit returned nil and the rollback was clean (nil or
    [sql.ErrTxDone]).  An error of the handler that is not
    [ErrCommitOnSpecific] comes back as it is when the rollback is clean.
    An error of the handler that is [ErrCommitOnSpecific] does not come back
    as nil, even when the commit succeeds: what comes back still is
    [ErrCommitOnSpecific] for [errors.Is]. *)
Theorem Transaction_result (manager : juice.Manager)
  (opts : list juice.TransactionOptionFunc) (a : juice.Answers) :
  juice.isEngine manager = true ->
  let err := fst (fst (juice.Transaction manager opts a)) in
  (err = None <->
   juice.begin a = None /\ juice.handler a = None /\
   juice.commit a = None /\ clean_rollback a) /\
  (forall e,
     juice.begin a = None -> juice.handler a = Some e ->
     juice.Is e juice.ErrCommitOnSpecific = false ->
     clean_rollback a -> err = Some e) /\
  (forall e,
     juice.begin a = None -> juice.handler a = Some e ->
     juice.Is e juice.ErrCommitOnSpecific = true ->
     exists r, err = Some r /\
               juice.Is r juice.ErrCommitOnSpecific = true).
Proof.
  intros Hm. unfold juice.Transaction. rewrite Hm. simpl negb. cbv iota.
  cbv zeta.
  split; [ | split ].
  - destruct (juice.begin a) as [eb | ]; simpl.
    { split; [ discriminate | intros [H _]; discriminate H ]. }
    destruct (juice.handler a) as [eh | ];
      [ destruct (juice.Is eh juice.ErrCommitOnSpecific) | ]; simpl;
      rewrite deferred_rollback_nil.
    + split; [ | intros [_ [H _]]; discriminate H ].
      intros [H _]. destruct (juice.commit a); discriminate H.
    + split; [ | intros [_ [H _]]; discriminate H ].
      intros [H _]. discriminate H.
    + split.
      * intros [H Hc]. destruct (juice.commit a); [ discriminate H | ].
        auto.
      * intros [_ [_ [-> Hc]]]. auto.
  - intros e -> -> His Hc. simpl. rewrite His. simpl.
    apply deferred_rollback_clean. exact Hc.
  - intros e -> -> His. simpl. rewrite His. simpl.
    assert (Hj : exists j, juice.Join [Some e; juice.commit a] = Some j /\
                           juice.Is j juice.ErrCommitOnSpecific = true).
    { destruct (juice.commit a) as [c | ]; eexists;
        (split; [ reflexivity | ]); simpl; rewrite His; reflexivity. }
    destruct Hj as [j [-> Hj]].
    destruct (juice.deferred_rollback a (Some j)) as [r | ] eqn:Hd.
    + exists r. split; [ reflexivity | ].
      exact (deferred_rollback_keeps a j r _ Hj Hd).
    + apply deferred_rollback_nil in Hd as [Hd _]. discriminate Hd.
Qed.

(** ** The output of the generator *)

Lemma HasSuffix_append (s suffix : string) :
  juice.HasSuffix (s ++ suffix) suffix = true.
Proof.
  unfold juice.HasSuffix. rewrite length_append.
  replace (String.length s + String.length suffix - String.length suffix)%nat
    with (String.length s) by lia.
  rewrite substring_suffix, String.eqb_refl.
  replace (String.length suffix <=? String.length s + String.length suffix)%nat
    with true by (symmetry; apply Nat.leb_le; lia).
  reflexivity.
Qed.

Section Output.

Variable os_Create : string -> option error.

(** X26: a file [Output] creates has a name that ends in [.go]: the
    output name itself when it ends so, the output name followed by [.go]
    when it does not; with an empty output name no file is created and the
    writer is the standard output; and the generator keeps the name of the
    file as its output name. *)
Theorem Output_go_file (g : internal.Generator) :
  internal.writer g = None ->
  let path := if juice.HasSuffix (internal.output g) ".go"
              then internal.output g else internal.output g ++ ".go" in
  juice.HasSuffix path ".go" = true /\
  (internal.output g = "" ->
   internal.Output os_Create g
     = ((Some internal.Stdout, None),
        {| internal.output := "";
           internal.writer := Some internal.Stdout |})) /\
  (internal.output g <> "" -> os_Create path = None ->
   internal.Output os_Create g
     = ((Some (internal.File path), None),
        {| internal.output := path;
           internal.writer := Some (internal.File path) |})).
Proof.
  intros Hw path. unfold internal.Output. rewrite Hw.
  split; [ | split ].
  - unfold path.
    destruct (juice.HasSuffix (internal.output g) ".go") eqn:Hs;
      [ exact Hs | apply HasSuffix_append ].
  - intros ->. reflexivity.
  - intros Hne Hc.
    destruct (internal.output g) as [ | c s] eqn:Ho;
      [ exfalso; apply Hne; reflexivity | ].
    simpl String.length. simpl Nat.ltb. cbv iota.
    fold path.
    replace (if negb (juice.HasSuffix (String c s) ".go")
             then String c s ++ ".go" else String c s) with path.
    2: { unfold path.
         destruct (juice.HasSuffix (String c s) ".go"); reflexivity. }
    rewrite Hc. reflexivity.
Qed.

(** X27: [Output] settles the writer once.  After a call that returned
    a writer, every further call returns that writer and changes nothing,
    whatever [os.Create] would answer.  After a call in which [os.Create]
    failed with an error, the generator holds a nil file as its writer: the
    next call returns it with a nil error and creates nothing. *)
Theorem Output_settled (g : internal.Generator) :
  let first := internal.Output os_Create g in
  let second := internal.Output os_Create (snd first) in
  (forall w, fst first = (Some w, None) ->
     second = ((Some w, None), snd first)) /\
  (forall err, fst first = (None, Some err) ->
     second = ((Some internal.NilFile, None), snd first)).
Proof.
  unfold internal.Output.
  destruct (internal.writer g) as [w0 | ] eqn:Hw; simpl.
  - rewrite Hw. split.
    + intros w H. injection H as <-. reflexivity.
    + intros err H. discriminate H.
  - destruct (0 <? String.length (internal.output g))%nat; simpl.
    + destruct (os_Create _) as [e | ]; simpl; split;
        intros x H; try discriminate H; try reflexivity.
      injection H as <-. reflexivity.
    + split; intros x H; try discriminate H.
      injection H as <-. reflexivity.
Qed.

End Output.

(** ** Examples *)

Lemma runtimeFuncName_clean_witness :
  "."%char <> "/"%char /\ "."%char <> "\"%char /\ "."%char <> "*"%char /\
  "."%char <> "("%char /\ "."%char <> ")"%char.
Proof.
  apply (runtimeFuncName_clean (fun _ => method_value_name) 0 "."%char).
  vm_compute. tauto.
Defined.

Lemma runtimeFuncName_of_clean_name_witness :
  juice.runtimeFuncName (fun _ => "main.T.Method-fm") 0 = "main.T.Method".
Proof.
  apply (proj1 (runtimeFuncName_of_clean_name
                  (fun _ => "main.T.Method-fm") 0 "main.T.Method"
                  ltac:(intros c Hc H; simpl in Hc, H;
                        repeat (destruct Hc as [<- | Hc];
                                [ repeat (destruct H as [H | H];
                                          [ discriminate H | ]);
                                  exact H | ]);
                        exact Hc))).
  reflexivity.
Defined.

Lemma cachedRuntimeFuncName_once_witness :
  snd (juice.cachedRuntimeFuncName (fun _ => method_value_name)
         [(7, "example.com.pkg.T.Method")] 7)
    = [(7, "example.com.pkg.T.Method")].
Proof.
  apply (proj1 (proj2 (cachedRuntimeFuncName_once
                         (fun _ => method_value_name)
                         [(7, "example.com.pkg.T.Method")] 7))).
  discriminate.
Defined.

Lemma Attr_after_settings_witness :
  juice.Attr fresh_environment "id" = "".
Proof.
  apply (proj2 (proj2 (Attr_after_settings fresh_environment [] "id"))).
  reflexivity.
Defined.

Lemma provider_of_environment_witness :
  juice.provider juice.init
    (juice.setAttr fresh_environment "provider" "vault")
    = juice.ValueProvider.
Proof.
  apply (proj1 (proj2 (proj2 (provider_of_environment juice.init
                                fresh_environment "vault"
                                juice.ValueProvider)))).
  reflexivity.
Defined.

Lemma Connect_limits_witness :
  exists db,
    juice.Connect (fun _ _ => None) two_lifetimes = (Some db, None) /\
    juice.ConnMaxIdleTime db = None /\
    juice.ConnMaxLifetime db = Some 5000000000 /\
    juice.MaxIdleConns db = Some 2 /\
    juice.MaxOpenConns db = None.
Proof.
  apply (Connect_limits (fun _ _ => None) two_lifetimes). reflexivity.
Defined.

Lemma Transaction_protocol_witness :
  snd (fst (juice.Transaction an_engine [] handler_fails))
    = [juice.Begin; juice.Handler; juice.Rollback] \/
  snd (fst (juice.Transaction an_engine [] handler_fails))
    = [juice.Begin; juice.Handler; juice.Commit; juice.Rollback].
Proof.
  apply (proj1 (proj2 (proj2 (Transaction_protocol an_engine []
                                handler_fails)
                         eq_refl))).
  reflexivity.
Defined.

Lemma Transaction_result_witness :
  exists r,
    fst (fst (juice.Transaction an_engine [] commit_on_specific)) = Some r /\
    juice.Is r juice.ErrCommitOnSpecific = true.
Proof.
  apply (proj2 (proj2 (Transaction_result an_engine [] commit_on_specific
                         eq_refl))
           (juice.Wrap "keep it" (juice.Sentinel juice.ErrCommitOnSpecific)));
    reflexivity.
Defined.

Lemma ExecContext_refusals_witness :
  exists e,
    juice.ExecContext (list Z) Z (fun _ => reflect.Slice) list_Len list_Slice
      count_rows (insert_in_batches "1_000") [1; 2; 3]
    = (juice.Returns (None, Some e), []).
Proof.
  apply (ExecContext_refusals (list Z) Z (fun _ => reflect.Slice) list_Len
           list_Slice count_rows (insert_in_batches "1_000") [1; 2; 3]).
  - reflexivity.
  - discriminate.
  - left. exists juice.ErrSyntax. reflexivity.
Defined.

Lemma ExecContext_batches_witness :
  juice.ExecContext (list Z) Z (fun _ => reflect.Slice) list_Len list_Slice
    count_rows (insert_in_batches "2") [10; 20; 30; 40; 50]
  = (juice.Returns (Some 1, None), [[10; 20]; [30; 40]; [50]]).
Proof.
  apply (proj1 (ExecContext_batches (list Z) Z (fun _ => reflect.Slice)
                  list_Len list_Slice count_rows (insert_in_batches "2")
                  [10; 20; 30; 40; 50] 2 (list_part [10; 20; 30; 40; 50])
                  eq_refl ltac:(discriminate) eq_refl ltac:(lia)
                  (or_introl eq_refl)
                  (list_sliceable Z [10; 20; 30; 40; 50])
                  ltac:(reflexivity)
                  ltac:(vm_compute; discriminate)
                  ltac:(reflexivity))).
Defined.

Lemma ExecContext_stops_at_failure_witness :
  juice.ExecContext (list Z) Z (fun _ => reflect.Slice) list_Len list_Slice
    fail_second (insert_in_batches "2") [10; 20; 30; 40; 50]
  = (juice.Returns (None, Some (juice.Fresh "duplicate key")),
     [[10; 20]; [30; 40]]).
Proof.
  apply (ExecContext_stops_at_failure (list Z) Z (fun _ => reflect.Slice)
           list_Len list_Slice fail_second (insert_in_batches "2")
           [10; 20; 30; 40; 50] 2 (list_part [10; 20; 30; 40; 50]) 1
           (juice.Fresh "duplicate key")
           eq_refl ltac:(discriminate) eq_refl ltac:(lia)
           (or_introl eq_refl) (list_sliceable Z [10; 20; 30; 40; 50])
           ltac:(reflexivity)
           ltac:(vm_compute; discriminate) ltac:(reflexivity)).
  - intros m Hm. destruct m as [ | m]; [ reflexivity | lia ].
  - reflexivity.
Defined.

Lemma ExecContext_batch_size_overflow_witness :
  juice.ExecContext (list Z) Z (fun _ => reflect.Slice) list_Len list_Slice
    count_rows (insert_in_batches "9223372036854775807") [10; 20]
  = (juice.Returns (None, None), []).
Proof.
  apply (ExecContext_batch_size_overflow (list Z) Z
           (fun _ => reflect.Slice) list_Len list_Slice count_rows
           (insert_in_batches "9223372036854775807") [10; 20]
           9223372036854775807).
  - reflexivity.
  - discriminate.
  - reflexivity.
  - unfold MaxInt64. lia.
  - left. reflexivity.
  - unfold MaxInt64, list_Len. simpl. lia.
  - unfold MaxInt64, list_Len. simpl. lia.
Defined.

Lemma ExecContext_unaddressable_array_witness :
  juice.ExecContext (list Z) Z (fun _ => reflect.Array) list_Len
    array_by_value_Slice count_rows (insert_in_batches "2") [10; 20; 30]
  = (juice.SlicePanics, []).
Proof.
  apply (ExecContext_unaddressable_array (list Z) Z (fun _ => reflect.Array)
           list_Len array_by_value_Slice count_rows (insert_in_batches "2")
           [10; 20; 30] 2
           eq_refl ltac:(discriminate) eq_refl ltac:(lia) eq_refl eq_refl
           ltac:(reflexivity) ltac:(vm_compute; discriminate)).
Defined.

Lemma ExecContext_batches_cover_witness :
  concat
    (snd (juice.ExecContext (list Z) Z (fun _ => reflect.Slice) list_Len
            list_Slice count_rows (insert_in_batches "2")
            [10; 20; 30; 40; 50]))
  = [10; 20; 30; 40; 50].
Proof.
  apply (proj1 (ExecContext_batches_cover Z Z count_rows
                  (insert_in_batches "2") [10; 20; 30; 40; 50] 2
                  eq_refl ltac:(discriminate) eq_refl ltac:(lia)
                  ltac:(discriminate) ltac:(vm_compute; discriminate)
                  ltac:(reflexivity))).
Defined.

Lemma Output_go_file_witness :
  internal.Output (fun _ => None)
    {| internal.output := "mapper"; internal.writer := None |}
  = ((Some (internal.File "mapper.go"), None),
     {| internal.output := "mapper.go";
        internal.writer := Some (internal.File "mapper.go") |}).
Proof.
  apply (proj2 (proj2 (Output_go_file (fun _ => None)
                         {| internal.output := "mapper";
                            internal.writer := None |}
                         eq_refl))).
  - discriminate.
  - reflexivity.
Defined.

Lemma Output_settled_witness :
  internal.Output (fun _ => Some (errorString "permission denied"))
    (snd (internal.Output (fun _ => Some (errorString "permission denied"))
            {| internal.output := "mapper"; internal.writer := None |}))
  = ((Some internal.NilFile, None),
     {| internal.output := "mapper.go";
        internal.writer := Some internal.NilFile |}).
Proof.
  apply (proj2 (Output_settled
                  (fun _ => Some (errorString "permission denied"))
                  {| internal.output := "mapper"; internal.writer := None |})
           (errorString "permission denied")).
  reflexivity.
Defined.
